(** * Star-Wars-API-Async-Fetcher: the concurrent paged search of
    [star_wars.py], as a transition system.

    [find_starship_rating] creates an [asyncio.Event], a result dictionary
    and an [asyncio.Queue] seeded with the page numbers [0..MAX_PAGE],
    launches [max_concurrency] [worker] tasks on the single-threaded event
    loop, awaits [queue.join()], sends one [None] sentinel per worker,
    gathers the tasks and returns [result_dict.get("hyperdrive_rating")].

    An asyncio task runs without interruption from one [await] to the next.
    The embedding therefore gives every task a control point for each place
    where it can be suspended, and one transition for the code between two
    such places.  The event loop's choice of the task to resume, the expiry
    of the 0.5 s timeout and the reply of the remote server are the
    environment: they are the [action]s of a schedule. *)

From Stdlib Require Import ZArith String Ascii List Bool Lia.
From Stdlib Require Import DecimalString DecimalZ.
From stdpp Require Import base option list strings gmap.

Local Open Scope string_scope.
Local Open Scope list_scope.

(** ** Data received from the server *)

(** One element of [data["results"]]. *)
Record starship := Starship {
  name : string;
  hyperdrive_rating : string
}.

(** [data["next"]].  The worker only tests it against [None] and, on the
    frontier page, reads a page number out of it (lines 57-59:
    [urlparse], [parse_qs], [params["page"][0]], [int]).  The field is
    represented by what those three lines make of it: a page number, or an
    exception ([KeyError], [IndexError] or [ValueError]) for a string that
    carries no readable [page] parameter. *)
Inductive next_field :=
| NextNull
| NextUrl (next_page : Z)
| NextUnreadable (url : string).

Record page := Page {
  results : list starship;
  next : next_field
}.

(** What [await fetch_page(session, page_number)] comes back with: the
    decoded JSON, or an exception ([raise_for_status], a network error). *)
Inductive fetch_outcome :=
| FetchOK (data : page)
| FetchError.

(** ** [str.lower] on ASCII text and the scan of one page *)

Definition lower_ascii (c : ascii) : ascii :=
  let n := nat_of_ascii c in
  if (65 <=? n)%nat && (n <=? 90)%nat then ascii_of_nat (n + 32) else c.

Fixpoint lower (s : string) : string :=
  match s with
  | EmptyString => EmptyString
  | String c rest => String (lower_ascii c) (lower rest)
  end.

(** Lines 42-48, the [for] loop: the rating of the first starship of the
    page whose lowered name equals the lowered target. *)
Fixpoint scan (starship_name : string) (rs : list starship) : option string :=
  match rs with
  | [] => None
  | s :: rest =>
      if String.eqb (lower (name s)) (lower starship_name)
      then Some (hyperdrive_rating s)
      else scan starship_name rest
  end.

(** ** [asyncio.Queue] *)

Module Queue.

(** The items waiting in the queue ([None] is the sentinel) and the
    counter [_unfinished_tasks] on which [join] waits. *)
Record t := Make {
  items : list (option Z);
  unfinished_tasks : nat
}.

Definition empty : t := Make [] 0.

Definition put_nowait (x : option Z) (q : t) : t :=
  Make (items q ++ [x]) (S (unfinished_tasks q)).

(** [get] on a queue that holds an item; on an empty queue the caller
    stays suspended. *)
Definition get (q : t) : option (option Z * t) :=
  match items q with
  | [] => None
  | x :: rest => Some (x, Make rest (unfinished_tasks q))
  end.

(** [task_done] raises [ValueError] when called more often than items
    were put. *)
Definition task_done (q : t) : option t :=
  match unfinished_tasks q with
  | O => None
  | S n => Some (Make (items q) n)
  end.

(** [join] returns once the counter is zero. *)
Definition joined (q : t) : bool := Nat.eqb (unfinished_tasks q) 0.

End Queue.

(** ** Shared objects *)

(** [MAX_PAGE] is the module-level global of line 6; the three others are
    the objects [find_starship_rating] creates and hands to every worker. *)
Record shared := Shared {
  MAX_PAGE : Z;
  found_event : bool;
  result_dict : gmap string string;
  queue : Queue.t
}.

Definition with_queue (q : Queue.t) (s : shared) : shared :=
  Shared (MAX_PAGE s) (found_event s) (result_dict s) q.

(** ** What an execution does, in order *)

Inductive exn :=
| UnreadableNext (url : string)
| TaskDoneTooOften.

Inductive event :=
| EvIsSet (w : nat) (b : bool)
| EvGet (w : nat) (item : option Z)
| EvTimeout (w : nat)
| EvFetchStart (w : nat) (p : Z)
| EvFetchFailed (w : nat) (p : Z)
| EvFetched (w : nat) (p : Z) (data : page)
| EvWrite (w : nat) (rating : string)
| EvSet (w : nat) (before : bool)
| EvAdvance (w : nat)
| EvPut (w : nat) (p : Z)
| EvTaskDone (w : nat)
| EvRaise (w : nat) (e : exn)
| EvJoined
| EvReturn (r : option string).

(** ** A state, trace and exception monad for the body of [worker] *)

Definition M (A : Type) : Type := shared -> (exn + A) * shared * list event.

#[global] Instance M_ret : MRet M := fun A a s => (inr a, s, []).

#[global] Instance M_bind : MBind M := fun A B f m s =>
  match m s with
  | (inl e, s1, t1) => (inl e, s1, t1)
  | (inr a, s1, t1) =>
      match f a s1 with
      | (r, s2, t2) => (r, s2, t1 ++ t2)
      end
  end.

Definition raise {A} (e : exn) : M A := fun s => (inl e, s, []).

Definition emit (e : event) : M unit := fun s => (inr tt, s, [e]).

(** [found_event.is_set()] *)
Definition is_set (w : nat) : M bool :=
  fun s => (inr (found_event s), s, [EvIsSet w (found_event s)]).

(** [found_event.set()] *)
Definition set_event (w : nat) : M unit :=
  fun s => (inr tt, Shared (MAX_PAGE s) true (result_dict s) (queue s),
            [EvSet w (found_event s)]).

(** [result_dict["hyperdrive_rating"] = rating] *)
Definition store_rating (w : nat) (rating : string) : M unit :=
  fun s => (inr tt,
            Shared (MAX_PAGE s) (found_event s)
                   (<["hyperdrive_rating" := rating]> (result_dict s)) (queue s),
            [EvWrite w rating]).

Definition read_MAX_PAGE : M Z := fun s => (inr (MAX_PAGE s), s, []).

(** [MAX_PAGE = MAX_PAGE + 1] *)
Definition advance (w : nat) : M unit :=
  fun s => (inr tt,
            Shared (MAX_PAGE s + 1) (found_event s) (result_dict s) (queue s),
            [EvAdvance w]).

(** [queue.put_nowait(next_page)] *)
Definition put_nowait (w : nat) (p : Z) : M unit :=
  fun s => (inr tt, with_queue (Queue.put_nowait (Some p) (queue s)) s, [EvPut w p]).

(** [queue.task_done()] *)
Definition task_done (w : nat) : M unit :=
  fun s =>
    match Queue.task_done (queue s) with
    | Some q => (inr tt, with_queue q s, [EvTaskDone w])
    | None => (inl TaskDoneTooOften, s, [])
    end.

(** ** The worker *)

(** Where a worker task stands between two runs: about to test the loop
    condition (line 22), suspended in [wait_for(queue.get())] (line 24),
    suspended in [fetch_page] for a page (line 35), returned, or ended by
    an exception. *)
Inductive wstate :=
| WLoop
| WGet
| WFetch (page_number : Z)
| WReturned
| WRaised (e : exn).

(** What wakes a suspended worker up. *)
Inductive resume :=
| Scheduled
| GotItem
| TimedOut
| Response (r : fetch_outcome).

(** Line 22: the loop condition. *)
Definition loop_head (w : nat) : M wstate :=
  b ← is_set w;
  if b : bool then mret WReturned else mret WGet.

(** Lines 29-35: an item came out of the queue. *)
Definition got (w : nat) (item : option Z) : M wstate :=
  emit (EvGet w item);;
  match item with
  | None => task_done w;; mret WReturned
  | Some page_number => emit (EvFetchStart w page_number);; mret (WFetch page_number)
  end.

(** Lines 55-64, for a page without a match whose [next] is not [None];
    [parse] stands for lines 57-59. *)
Definition frontier (w : nat) (page_number : Z) (parse : M Z) : M wstate :=
  max_page ← read_MAX_PAGE;
  (if Z.eqb page_number max_page then
     next_page ← parse;
     advance w;;
     b ← is_set w;
     if b : bool then mret tt else put_nowait w next_page
   else mret tt);;
  task_done w;;
  mret WLoop.

(** Lines 36-64: [fetch_page] has come back. *)
Definition fetched (w : nat) (starship_name : string) (page_number : Z)
    (r : fetch_outcome) : M wstate :=
  match r with
  | FetchError =>
      emit (EvFetchFailed w page_number);;
      task_done w;;
      mret WLoop
  | FetchOK data =>
      emit (EvFetched w page_number data);;
      match scan starship_name (results data) with
      | Some rating =>
          store_rating w rating;;
          set_event w;;
          task_done w;;
          mret WReturned
      | None =>
          match next data with
          | NextNull =>
              set_event w;;
              task_done w;;
              mret WReturned
          | NextUrl n => frontier w page_number (mret n)
          | NextUnreadable url => frontier w page_number (raise (UnreadableNext url))
          end
      end
  end.

(** One run of a worker task from a control point to the next one.  [None]
    when the wake-up does not apply: a task that has ended is never
    resumed, [queue.get()] delivers only from a queue that holds an item,
    and the timeout ends a wait on an empty queue. *)
Definition worker (w : nat) (starship_name : string) (pc : wstate)
    (r : resume) (s : shared) : option ((exn + wstate) * shared * list event) :=
  match pc, r with
  | WLoop, Scheduled => Some (loop_head w s)
  | WGet, GotItem =>
      match Queue.get (queue s) with
      | Some (item, q) => Some (got w item (with_queue q s))
      | None => None
      end
  | WGet, TimedOut =>
      match Queue.items (queue s) with
      | [] => Some ((emit (EvTimeout w);; mret WReturned) s)
      | _ :: _ => None
      end
  | WFetch page_number, Response o => Some (fetched w starship_name page_number o s)
  | _, _ => None
  end.

(** ** The coordinator and the whole system *)

Inductive cstate :=
| CJoin
| CGather
| CReturned (r : option string).

Record state := State {
  sh : shared;
  tasks : list wstate;
  coord : cstate
}.

(** Lines 74-88, up to the first [await]: fresh event, dictionary and queue,
    the queue seeded with [range(0, MAX_PAGE+1)], one task per worker.  The
    global [MAX_PAGE] is read as the module holds it. *)
Definition find_starship_rating_start (max_page : Z) (max_concurrency : nat) : state :=
  State
    (Shared max_page false ∅
       (foldl (fun q i => Queue.put_nowait (Some i) q) Queue.empty
              (seqZ 0 (max_page + 1))))
    (replicate max_concurrency WLoop)
    CJoin.

Definition finished (pc : wstate) : bool :=
  match pc with
  | WReturned | WRaised _ => true
  | _ => false
  end.

(** Lines 93-101: [join] returns when nothing is outstanding and the
    sentinels are put at once, one per task; [gather] returns when every
    task has ended, whatever its outcome, and the result is read. *)
Definition find_starship_rating_resume (st : state) : option (state * list event) :=
  match coord st with
  | CJoin =>
      if Queue.joined (queue (sh st)) then
        Some (State
                (with_queue
                   (foldl (fun q _ => Queue.put_nowait None q) (queue (sh st))
                          (seq 0 (length (tasks st))))
                   (sh st))
                (tasks st) CGather,
              [EvJoined])
      else None
  | CGather =>
      if forallb finished (tasks st) then
        let r := result_dict (sh st) !! "hyperdrive_rating" in
        Some (State (sh st) (tasks st) (CReturned r), [EvReturn r])
      else None
  | CReturned _ => None
  end.

Inductive action :=
| AWorker (w : nat) (r : resume)
| ACoord.

(** A worker that raises ends as a failed task; [gather] is called with
    [return_exceptions=True], so nothing else sees the exception. *)
Definition step (starship_name : string) (st : state) (a : action)
  : option (state * list event) :=
  match a with
  | ACoord => find_starship_rating_resume st
  | AWorker w r =>
      match tasks st !! w with
      | None => None
      | Some pc =>
          match worker w starship_name pc r (sh st) with
          | None => None
          | Some (inr pc', s', t) =>
              Some (State s' (<[w := pc']> (tasks st)) (coord st), t)
          | Some (inl e, s', t) =>
              Some (State s' (<[w := WRaised e]> (tasks st)) (coord st),
                    t ++ [EvRaise w e])
          end
      end
  end.

Fixpoint run (starship_name : string) (st : state) (sched : list action)
  : option (state * list event) :=
  match sched with
  | [] => Some (st, [])
  | a :: rest =>
      match step starship_name st a with
      | None => None
      | Some (st1, t1) =>
          match run starship_name st1 rest with
          | None => None
          | Some (st2, t2) => Some (st2, t1 ++ t2)
          end
      end
  end.

(** The executions: [reaches name s0 st tr] when some schedule leads from
    [s0] to [st] and [tr] is what happened on the way. *)
Inductive reaches (starship_name : string) (s0 : state) : state -> list event -> Prop :=
| reaches_here : reaches starship_name s0 s0 []
| reaches_next st tr a st' t :
    reaches starship_name s0 st tr ->
    step starship_name st a = Some (st', t) ->
    reaches starship_name s0 st' (tr ++ t).

(** ** Observations on traces and task lists *)

Definition is_write (e : event) : bool :=
  match e with EvWrite _ _ => true | _ => false end.
Definition is_get (e : event) : bool :=
  match e with EvGet _ _ => true | _ => false end.
Definition is_task_done (e : event) : bool :=
  match e with EvTaskDone _ => true | _ => false end.
Definition is_advance (e : event) : bool :=
  match e with EvAdvance _ => true | _ => false end.
Definition is_transition (e : event) : bool :=
  match e with EvSet _ false => true | _ => false end.

Definition is_set_call (e : event) : bool :=
  match e with EvSet _ _ => true | _ => false end.

Definition count {A} (f : A -> bool) (l : list A) : nat :=
  length (List.filter f l).

Definition fetching (pc : wstate) : bool :=
  match pc with WFetch _ => true | _ => false end.
(** Suspended in [queue.get()] or in [fetch_page]. *)
Definition waiting (pc : wstate) : bool :=
  match pc with WGet | WFetch _ => true | _ => false end.

(** The values [found_event.is_set()] returned, in order. *)
Definition observations (tr : list event) : list bool :=
  omap (fun e => match e with EvIsSet _ b => Some b | _ => None end) tr.

(** Worker [w] has seen the event set. *)
Definition saw_set (w : nat) (tr : list event) : Prop := In (EvIsSet w true) tr.

(** ** Invariants of the executions *)

(** Every page being fetched and every item waiting in the queue is
    counted in [_unfinished_tasks]. *)
Definition outstanding_ok (st : state) : Prop :=
  count fetching (tasks st) + length (Queue.items (queue (sh st)))
  <= Queue.unfinished_tasks (queue (sh st)).

(** Once a worker has read the event as set, the event is set and the
    worker is neither waiting for an item nor fetching a page: it is back
    at the loop condition, or has ended. *)
Definition seen_ok (st : state) (tr : list event) : Prop :=
  forall w, saw_set w tr ->
    found_event (sh st) = true
    /\ exists pc, tasks st !! w = Some pc /\ waiting pc = false.

(** The dictionary holds a rating exactly when a page with a match has
    arrived, and the rating is that of a match on such a page. *)
Definition result_ok (starship_name : string) (st : state) (tr : list event) : Prop :=
  (forall rating, result_dict (sh st) !! "hyperdrive_rating" = Some rating ->
     exists w p data, In (EvFetched w p data) tr
                      /\ scan starship_name (results data) = Some rating)
  /\ (forall w p data, In (EvFetched w p data) tr ->
        scan starship_name (results data) <> None ->
        result_dict (sh st) !! "hyperdrive_rating" <> None).

(** What the coordinator returned is what the dictionary holds, and no
    task is left to change it. *)
Definition returned_ok (st : state) : Prop :=
  forall r, coord st = CReturned r ->
    r = result_dict (sh st) !! "hyperdrive_rating"
    /\ forallb finished (tasks st) = true.

(** ** Letter case *)

(** Two characters that are equal, or the upper-case and the lower-case
    form of one letter. *)
Definition same_letter (a b : ascii) : bool :=
  Ascii.eqb a b
  || (let n := nat_of_ascii a in
      (65 <=? n)%nat && (n <=? 90)%nat && Ascii.eqb b (ascii_of_nat (n + 32)))
  || (let n := nat_of_ascii b in
      (65 <=? n)%nat && (n <=? 90)%nat && Ascii.eqb a (ascii_of_nat (n + 32))).

(** Two strings that differ at most in the case of their letters. *)
Fixpoint same_but_case (s t : string) : bool :=
  match s, t with
  | EmptyString, EmptyString => true
  | String a s', String b t' => same_letter a b && same_but_case s' t'
  | _, _ => false
  end.

(** ** Scenarios *)

(** Pages as the starships endpoint serves them. *)
Definition page_1 : page :=
  Page [Starship "CR90 corvette" "2.0"; Starship "Star Destroyer" "2.0";
        Starship "Millennium Falcon" "0.5"; Starship "Y-wing" "1.0";
        Starship "X-wing" "1.0"]
       (NextUrl 2).

Definition page_2 : page :=
  Page [Starship "Slave 1" "3.0"; Starship "Imperial shuttle" "1.0"] (NextUrl 3).

Definition page_3_last : page :=
  Page [Starship "A-wing" "1.0"; Starship "B-wing" "2.0"] NextNull.

(** A second page that lists the Y-wing once more. *)
Definition page_2_y_wing : page :=
  Page [Starship "Slave 1" "3.0"; Starship "Y-Wing" "1.5"] (NextUrl 3).

(** A second page whose [next] link has no [page] parameter. *)
Definition page_2_no_param : page :=
  Page [Starship "Slave 1" "3.0"; Starship "Imperial shuttle" "1.0"]
       (NextUnreadable "https://swapi.dev/api/starships/").

(** Worker [w] passes the loop condition, takes an item and gets the
    reply [o] to its fetch. *)
Definition turn (w : nat) (o : fetch_outcome) : list action :=
  [AWorker w Scheduled; AWorker w GotItem; AWorker w (Response o)].

(** One worker; page 0 does not exist, the target is on page 1. *)
Definition early_match : list action :=
  turn 0 FetchError ++ turn 0 (FetchOK page_1).

(** One worker; the [next] link of page 2, the frontier, is unreadable. *)
Definition unreadable_next : list action :=
  turn 0 FetchError ++ turn 0 (FetchOK page_1) ++ turn 0 (FetchOK page_2_no_param).

(** Two workers; page 1 arrives before page 0 fails. *)
Definition match_before_failure : list action :=
  [AWorker 0 Scheduled; AWorker 0 GotItem;
   AWorker 1 Scheduled; AWorker 1 GotItem;
   AWorker 1 (Response (FetchOK page_1));
   AWorker 0 (Response FetchError);
   AWorker 0 Scheduled].

(** Three workers fetch pages 0, 1 and 2 at the same time; pages 1 and 2
    both list the target. *)
Definition two_matches : list action :=
  [AWorker 0 Scheduled; AWorker 0 GotItem;
   AWorker 1 Scheduled; AWorker 1 GotItem;
   AWorker 2 Scheduled; AWorker 2 GotItem;
   AWorker 0 (Response FetchError);
   AWorker 1 (Response (FetchOK page_1));
   AWorker 2 (Response (FetchOK page_2_y_wing))].

(** One worker goes through the three pages of a collection that does not
    list the target, and the coordinator returns. *)
Definition whole_collection : list action :=
  turn 0 FetchError ++ turn 0 (FetchOK page_1) ++ turn 0 (FetchOK page_2)
  ++ turn 0 (FetchOK page_3_last) ++ [ACoord; ACoord].

(** The first two pages of the same search: the worker is now fetching
    page 2, the frontier. *)
Definition at_the_frontier : list action :=
  turn 0 FetchError ++ turn 0 (FetchOK page_1)
  ++ [AWorker 0 Scheduled; AWorker 0 GotItem].

(** State and trace at the end of a schedule. *)
Definition outcome (o : option (state * list event)) : state * list event :=
  default (find_starship_rating_start 0 0, []) o.

(** Where three of the scenarios end. *)
Definition whole_collection_end : state * list event :=
  outcome (run "Death Star" (find_starship_rating_start 2 1) whole_collection).

Definition at_the_frontier_end : state * list event :=
  outcome (run "Death Star" (find_starship_rating_start 2 1) at_the_frontier).

Definition two_matches_end : state * list event :=
  outcome (run "y-wing" (find_starship_rating_start 2 3) two_matches).

(** ** Further observations on executions *)

(** A worker that raised on an unreadable [next] link: the page it had
    taken is never marked done. *)
Definition dropped (pc : wstate) : bool :=
  match pc with WRaised (UnreadableNext _) => true | _ => false end.

Definition unfinished (pc : wstate) : bool := negb (finished pc).

Definition is_put (e : event) : bool :=
  match e with EvPut _ _ => true | _ => false end.

(** The events of fetching and processing a page. *)
Definition is_work (e : event) : bool :=
  match e with
  | EvFetchStart _ _ | EvFetchFailed _ _ | EvFetched _ _ _ | EvWrite _ _
  | EvSet _ _ | EvAdvance _ | EvPut _ _ => true
  | _ => false
  end.

(** The rating of the last write of a trace. *)
Definition last_write (tr : list event) : option string :=
  foldl (fun acc e => match e with EvWrite _ r => Some r | _ => acc end) None tr.

(** [_unfinished_tasks] counts exactly the items in the queue, the pages
    being fetched and the pages dropped by a worker that raised. *)
Definition accounted (st : state) : Prop :=
  Queue.unfinished_tasks (queue (sh st))
  = length (Queue.items (queue (sh st)))
    + count fetching (tasks st) + count dropped (tasks st).

(** Once [join] has returned nobody is fetching and the queue holds
    sentinels only. *)
Definition after_join (st : state) (tr : list event) : Prop :=
  In EvJoined tr ->
  count fetching (tasks st) = 0
  /\ (forall item, In item (Queue.items (queue (sh st))) -> item = None).

(** ** [fetch_page] and [main] *)

(** Line 10: the URL that [fetch_page] requests, with [page_number] in
    decimal as an f-string prints an [int]. *)
Definition fetch_url (page_number : Z) : string :=
  String.append "https://swapi.dev/api/starships/?page="
                (NilEmpty.string_of_int (Z.to_int page_number)).

(** Lines 105-110: what [main] prints for the value the search returned;
    [None] and the empty string are false in the test [if rating]. *)
Definition starship_to_find : string := "Jedi Interceptor".

Definition main_prints (rating : option string) : string :=
  match rating with
  | Some (String c r) =>
      String.append "Found '"
        (String.append starship_to_find
           (String.append "' with hyperdrive_rating = " (String c r)))
  | _ =>
      String.append "Starship '" (String.append starship_to_find "' not found!")
  end.

(** ** More scenarios *)

Definition page_3_jedi : page :=
  Page [Starship "Naboo fighter" "1.0"; Starship "Jedi Interceptor" "1.0"]
       (NextUrl 4).

(** One worker; the target is on page 2, the last page seeded, and the
    coordinator returns its rating. *)
Definition found_on_page_2 : list action :=
  turn 0 FetchError ++ turn 0 (FetchOK page_1) ++ turn 0 (FetchOK page_2)
  ++ [ACoord; ACoord].

Definition found_on_page_2_end : state * list event :=
  outcome (run "slave 1" (find_starship_rating_start 2 1) found_on_page_2).

(** The search of [main]: five workers, three of them fetch pages 0, 1
    and 2, the third goes on to page 3 and finds the target there. *)
Definition main_search : list action :=
  [AWorker 0 Scheduled; AWorker 0 GotItem;
   AWorker 1 Scheduled; AWorker 1 GotItem;
   AWorker 2 Scheduled; AWorker 2 GotItem;
   AWorker 0 (Response FetchError);
   AWorker 1 (Response (FetchOK page_1));
   AWorker 2 (Response (FetchOK page_2))]
  ++ turn 2 (FetchOK page_3_jedi)
  ++ [AWorker 0 Scheduled; AWorker 1 Scheduled; ACoord;
      AWorker 3 Scheduled; AWorker 4 Scheduled; ACoord].

Definition main_search_end : state * list event :=
  outcome (run starship_to_find (find_starship_rating_start 2 5) main_search).

(** The same search up to the return of [join]. *)
Definition found_on_page_2_joined : list action :=
  turn 0 FetchError ++ turn 0 (FetchOK page_1) ++ turn 0 (FetchOK page_2)
  ++ [ACoord].

Definition found_on_page_2_joined_end : state * list event :=
  outcome (run "slave 1" (find_starship_rating_start 2 1) found_on_page_2_joined).

(** Two workers; the second one waits on the queue while the first one
    goes through the three pages, and is still waiting when the sentinels
    are put. *)
Definition sentinel_for_waiting_worker : list action :=
  [AWorker 1 Scheduled]
  ++ turn 0 FetchError ++ turn 0 (FetchOK page_1) ++ turn 0 (FetchOK page_2)
  ++ [ACoord].

Definition sentinel_for_waiting_worker_end : state * list event :=
  outcome (run "slave 1" (find_starship_rating_start 2 2) sentinel_for_waiting_worker).

(** One worker has reached page 3 of a collection without the target and
    is fetching it. *)
Definition at_the_last_page : list action :=
  turn 0 FetchError ++ turn 0 (FetchOK page_1) ++ turn 0 (FetchOK page_2)
  ++ [AWorker 0 Scheduled; AWorker 0 GotItem].

Definition at_the_last_page_end : state * list event :=
  outcome (run "Death Star" (find_starship_rating_start 2 1) at_the_last_page).

Definition early_match_end : state * list event :=
  outcome (run "X-wing" (find_starship_rating_start 2 1) early_match).

(** * Proofs *)

Lemma count_app {A} (f : A -> bool) l1 l2 :
  count f (l1 ++ l2) = count f l1 + count f l2.
Proof. unfold count. by rewrite List.filter_app, length_app. Qed.

Lemma count_le_length {A} (f : A -> bool) l : count f l <= length l.
Proof. apply List.filter_length_le. Qed.

Lemma count_insert {A} (f : A -> bool) (l : list A) i x y :
  l !! i = Some x ->
  count f (<[i := y]> l) + (if f x then 1 else 0)
  = count f l + (if f y then 1 else 0).
Proof.
  revert i. induction l as [|z l IH]; intros [|i] Hi; simplify_eq/=.
  - unfold count; simpl. destruct (f x), (f y); simpl; lia.
  - specialize (IH i Hi). unfold count in *; simpl.
    destruct (f z); simpl; lia.
Qed.

(** Case analysis on one transition: every path through [worker] and
    through the coordinator, with the state and the events it produces. *)
Ltac step_cases H :=
  match type of H with
  | step _ ?st ?a = Some _ =>
      destruct st as [[? ? ? [? ?]] ? ?];
      destruct a as [? ?|];
      cbv beta iota zeta delta [step sh tasks coord] in H;
      [ let Hpc := fresh "Hpc" in
        match type of H with
        | context [?tk !! ?w] =>
            destruct (tk !! w) as [[]|] eqn:Hpc; [| | | | |discriminate H]
        end;
        match type of H with
        | context [worker _ _ _ ?r _] => destruct r
        end;
        try discriminate H;
        cbv beta iota zeta delta
          [worker loop_head got fetched frontier mbind M_bind mret M_ret emit
           raise is_set set_event store_rating read_MAX_PAGE advance
           put_nowait task_done Queue.task_done Queue.get Queue.put_nowait
           with_queue MAX_PAGE found_event result_dict queue Queue.items
           Queue.unfinished_tasks] in H;
        repeat case_match; simplify_eq; simpl in *
      | cbv beta iota zeta delta
          [find_starship_rating_resume sh tasks coord Queue.joined
           with_queue MAX_PAGE found_event result_dict queue Queue.items
           Queue.unfinished_tasks] in H;
        repeat case_match; simplify_eq; simpl in * ]
  end.

(** Case analysis on the place of an event inside the events of one
    transition. *)
Ltac locate_event :=
  repeat match goal with
         | H : _ = ?k ++ _ :: _ |- _ => destruct k; simplify_eq/=
         end.

Ltac tasks_count f :=
  match goal with
  | Hpc : ?tk !! ?w = Some ?pc |- context [<[?w := ?pc']> ?tk] =>
      pose proof (count_insert f tk w pc pc' Hpc); simpl in *
  end.

Lemma put_sentinels_items {A} (q : Queue.t) (l : list A) :
  Queue.items (foldl (fun q _ => Queue.put_nowait None q) q l)
  = Queue.items q ++ replicate (length l) None.
Proof.
  revert q. induction l as [|x l IH]; intros q; simpl.
  - by rewrite app_nil_r.
  - rewrite IH. simpl. by rewrite <- app_assoc.
Qed.

Lemma put_sentinels_unfinished {A} (q : Queue.t) (l : list A) :
  Queue.unfinished_tasks (foldl (fun q _ => Queue.put_nowait None q) q l)
  = Queue.unfinished_tasks q + length l.
Proof.
  revert q. induction l as [|x l IH]; intros q; simpl; [lia|].
  rewrite IH. simpl. lia.
Qed.

Lemma seed_items (q : Queue.t) (l : list Z) :
  Queue.items (foldl (fun q i => Queue.put_nowait (Some i) q) q l)
  = Queue.items q ++ map Some l.
Proof.
  revert q. induction l as [|x l IH]; intros q; simpl.
  - by rewrite app_nil_r.
  - rewrite IH. simpl. by rewrite <- app_assoc.
Qed.

Lemma seed_unfinished (q : Queue.t) (l : list Z) :
  Queue.unfinished_tasks (foldl (fun q i => Queue.put_nowait (Some i) q) q l)
  = Queue.unfinished_tasks q + length l.
Proof.
  revert q. induction l as [|x l IH]; intros q; simpl; [lia|].
  rewrite IH. simpl. lia.
Qed.

Lemma count_lookup {A} (f : A -> bool) (l : list A) i x :
  l !! i = Some x -> f x = true -> 1 <= count f l.
Proof.
  revert i. induction l as [|z l IH]; intros [|i] Hi Hf; simplify_eq/=.
  - unfold count; simpl. rewrite Hf. simpl. lia.
  - specialize (IH i Hi Hf). unfold count in *; simpl.
    destruct (f z); simpl; lia.
Qed.

Lemma forallb_lookup {A} (f : A -> bool) (l : list A) i x :
  forallb f l = true -> l !! i = Some x -> f x = true.
Proof.
  revert i. induction l as [|z l IH]; intros [|i] Hall Hi; simplify_eq/=.
  - by apply andb_true_iff in Hall as [? _].
  - apply andb_true_iff in Hall as [_ ?]. eauto.
Qed.

(** *** Letter case and the scan *)



Lemma scan_Some target rs rating :
  scan target rs = Some rating ->
  exists s, In s rs /\ lower (name s) = lower target /\ hyperdrive_rating s = rating.
Proof.
  induction rs as [|s rs IH]; simpl; [done|].
  destruct (String.eqb _ _) eqn:E.
  - intros [= <-]. apply String.eqb_eq in E. eauto.
  - intros H. destruct (IH H) as (s' & ? & ? & ?). eauto.
Qed.

Lemma scan_None target rs s :
  scan target rs = None -> In s rs -> lower (name s) <> lower target.
Proof.
  induction rs as [|s' rs IH]; simpl; [done|].
  destruct (String.eqb _ _) eqn:E; [done|].
  intros H [->|Hin]; [|by apply IH].
  by apply String.eqb_neq in E.
Qed.

Lemma scan_finds target rs s :
  In s rs -> lower (name s) = lower target -> scan target rs <> None.
Proof.
  intros Hin Heq Hnone. by apply (scan_None _ _ _ Hnone Hin).
Qed.

Lemma count_replicate_false {A} (f : A -> bool) n x :
  f x = false -> count f (replicate n x) = 0.
Proof.
  intros Hf. induction n as [|n IH]; [done|].
  unfold count in *; simpl. by rewrite Hf.
Qed.

Section Executions.

Context (starship_name : string).

Local Abbreviation step := (step starship_name).
Local Abbreviation run := (run starship_name).
Local Abbreviation reaches := (reaches starship_name).
Local Abbreviation result_ok := (result_ok starship_name).

Lemma reaches_run s0 st tr sched st' tr' :
  reaches s0 st tr -> run st sched = Some (st', tr') ->
  reaches s0 st' (tr ++ tr').
Proof.
  revert st tr st' tr'. induction sched as [|a sched IH]; intros st tr st' tr' Hr Hrun.
  - simpl in Hrun. simplify_eq. by rewrite app_nil_r.
  - simpl in Hrun.
    destruct (step st a) as [[st1 t1]|] eqn:Hs; [|done].
    destruct (run st1 sched) as [[st2 t2]|] eqn:Hr2; [|done].
    simplify_eq. rewrite app_assoc. eapply IH; [|done].
    by eapply reaches_next.
Qed.

Lemma run_reaches s0 sched st tr :
  run s0 sched = Some (st, tr) -> reaches s0 st tr.
Proof. intros H. apply (reaches_run s0 s0 [] sched st tr); [constructor | done]. Qed.

(** *** Bookkeeping of the queue *)

Lemma outstanding_ok_step st a st' t :
  outstanding_ok st -> step st a = Some (st', t) -> outstanding_ok st'.
Proof.
  unfold outstanding_ok. intros Hok H. step_cases H.
  all: try tasks_count fetching.
  all: rewrite ?put_sentinels_items, ?put_sentinels_unfinished, ?length_app,
         ?length_replicate; simpl.
  all: lia.
Qed.

Lemma outstanding_ok_start max_page n :
  outstanding_ok (find_starship_rating_start max_page n).
Proof.
  unfold outstanding_ok, find_starship_rating_start; simpl.
  rewrite seed_items, seed_unfinished. simpl. rewrite List.length_map.
  assert (count fetching (replicate n WLoop) = 0) as ->; [|lia].
  induction n; [done|]. unfold count in *; simpl. done.
Qed.

Lemma outstanding_ok_reaches s0 st tr :
  outstanding_ok s0 -> reaches s0 st tr -> outstanding_ok st.
Proof. intros H0 Hr. induction Hr; [done|]. by eapply outstanding_ok_step. Qed.

(** [task_done] is never called once too often, and never more often
    than items were taken out of the queue. *)
Lemma no_task_done_error_step st a st' t w :
  outstanding_ok st -> step st a = Some (st', t) ->
  ~ In (EvRaise w TaskDoneTooOften) t.
Proof.
  unfold outstanding_ok. intros Hok H. step_cases H.
  all: try (intros Hin; intuition congruence).
  all: try (simpl in Hok; lia).
  all: match goal with
       | Hpc : _ !! _ = Some (WFetch _) |- _ =>
           pose proof (count_lookup fetching _ _ _ Hpc eq_refl); lia
       end.
Qed.

Lemma no_task_done_error s0 st tr w :
  outstanding_ok s0 -> reaches s0 st tr ->
  ~ In (EvRaise w TaskDoneTooOften) tr.
Proof.
  intros H0 Hr. induction Hr as [|st tr a st' t Hr IH Hs]; [by intros []|].
  rewrite in_app_iff. intros [Hin|Hin]; [done|].
  eapply no_task_done_error_step; [|done..].
  by eapply outstanding_ok_reaches.
Qed.

(** The items taken out of the queue are those marked done, those being
    fetched, and those a worker dropped when it raised. *)
Lemma done_le_got_step st a st' t :
  step st a = Some (st', t) ->
  count is_task_done t + count fetching (tasks st')
  <= count is_get t + count fetching (tasks st).
Proof.
  intros H. step_cases H.
  all: try tasks_count fetching.
  all: unfold count in *; simpl in *; try lia.
Qed.

Lemma done_le_got s0 st tr :
  reaches s0 st tr ->
  count is_task_done tr + count fetching (tasks st)
  <= count is_get tr + count fetching (tasks s0).
Proof.
  intros Hr. induction Hr as [|st tr a st' t Hr IH Hs]; [done|].
  pose proof (done_le_got_step _ _ _ _ Hs). rewrite !count_app. lia.
Qed.

(** *** Where an event of a trace comes from *)

(** Every event of a trace was produced by one transition, taken from a
    state that the events before it lead to. *)
Lemma reaches_emitted s0 st tr e tr1 tr2 :
  reaches s0 st tr -> tr = tr1 ++ e :: tr2 ->
  exists st1 pre a st2 k1 k2 post,
    reaches s0 st1 pre /\ step st1 a = Some (st2, k1 ++ e :: k2)
    /\ tr1 = pre ++ k1 /\ tr2 = k2 ++ post.
Proof.
  intros Hr. revert tr1 tr2.
  induction Hr as [|st tr a st' t Hr IH Hs]; intros tr1 tr2 Heq.
  - by destruct tr1.
  - apply app_eq_inv in Heq as [(k & -> & Hk)|(k & -> & ->)].
    + destruct k as [|e' k]; simpl in Hk.
      * subst t. exists st, (tr1 ++ []), a, st', [], tr2, [].
        rewrite !app_nil_r. rewrite app_nil_r in Hr. by simpl.
      * injection Hk as <- ->.
        destruct (IH tr1 k eq_refl)
          as (st1 & pre & a1 & st2 & k1 & k2 & post & H1 & H2 & -> & ->).
        exists st1, pre, a1, st2, k1, k2, (post ++ t).
        by rewrite app_assoc.
    + exists st, tr, a, st', k, tr2, []. by rewrite app_nil_r.
Qed.

(** *** The termination signal *)

Lemma found_event_step st a st' t :
  step st a = Some (st', t) ->
  found_event (sh st) = true -> found_event (sh st') = true.
Proof. intros H Hfe. step_cases H; done. Qed.

Lemma found_event_reaches s0 st tr :
  reaches s0 st tr ->
  found_event (sh s0) = true -> found_event (sh st) = true.
Proof. induction 1; eauto using found_event_step. Qed.

(** A transition reads the event at most once, and reads what the state
    holds when the transition starts. *)
Lemma observations_step st a st' t :
  step st a = Some (st', t) ->
  observations t = [] \/ observations t = [found_event (sh st)].
Proof. intros H. step_cases H; auto. Qed.

Lemma saw_set_step st a st' t w :
  step st a = Some (st', t) -> saw_set w t ->
  found_event (sh st) = true.
Proof.
  unfold saw_set. intros H Hin. step_cases H; simpl in Hin; try done.
  all: intuition congruence.
Qed.

(** A transition calls [set] on an unset event at most once, and then
    leaves it set. *)
Lemma transition_step st a st' t :
  step st a = Some (st', t) ->
  count is_transition t <= 1
  /\ (found_event (sh st) = true -> count is_transition t = 0).
Proof.
  intros H. step_cases H; unfold count; simpl; try (split; [lia|done]).
  all: match goal with b : bool |- _ => destruct b end.
  all: simpl; split; first [lia | done].
Qed.

Lemma transition_sets st a st' t :
  step st a = Some (st', t) ->
  0 < count is_transition t -> found_event (sh st') = true.
Proof.
  intros H. step_cases H; unfold count; simpl; try lia; done.
Qed.

(** *** A worker that has seen the event set *)

Lemma seen_ok_step st tr a st' t :
  seen_ok st tr -> step st a = Some (st', t) -> seen_ok st' (tr ++ t).
Proof.
  intros Hinv H w Hin. unfold saw_set in Hin.
  apply in_app_iff in Hin as [Hin|Hin].
  - destruct (Hinv w Hin) as (Hfe & pc & Hw & Hpc).
    split; [by eapply found_event_step|].
    clear Hinv Hin. step_cases H; simpl in *; subst; eauto.
    all: match goal with
         | |- context [<[?w0 := _]> _ !! ?w] => destruct (decide (w0 = w)) as [->|]
         end.
    all: try (rewrite list_lookup_insert_ne by done; eauto).
    all: simplify_eq; try done.
    all: rewrite list_lookup_insert_eq by (by eapply lookup_lt_Some); eauto.
  - pose proof (saw_set_step _ _ _ _ _ H Hin) as Hfe.
    split; [by eapply found_event_step|].
    clear Hinv. step_cases H; simpl in *; try done.
    all: repeat (destruct Hin as [Hin|Hin]; simplify_eq; try done).
    all: rewrite list_lookup_insert_eq by (by eapply lookup_lt_Some); eauto.
Qed.

Lemma seen_ok_reaches s0 st tr :
  reaches s0 st tr -> seen_ok st tr.
Proof.
  induction 1 as [|st tr a st' t Hr IH Hs]; [by intros w []|].
  by eapply seen_ok_step.
Qed.

(** Taking an item, starting a fetch and putting a page are all done by
    workers that have never seen the event set. *)
Lemma active_not_seen s0 st tr tr1 e tr2 w :
  reaches s0 st tr -> tr = tr1 ++ e :: tr2 ->
  (exists item, e = EvGet w item) \/ (exists p, e = EvFetchStart w p)
  \/ (exists p, e = EvPut w p) ->
  ~ saw_set w tr1.
Proof.
  intros Hr Heq He.
  destruct (reaches_emitted _ _ _ _ _ _ Hr Heq)
    as (st1 & pre & a & st2 & k1 & k2 & post & Hpre & Hs & -> & ->).
  pose proof (seen_ok_reaches _ _ _ Hpre w) as Hseen.
  unfold saw_set in *. rewrite in_app_iff. intros [Hin|Hin].
  - destruct (Hseen Hin) as (_ & pc & Hw & Hpc). clear Hseen Hin Hr Hpre.
    step_cases Hs; locate_event.
    all: try (destruct He as [[? ?]|[[? ?]|[? ?]]]; simplify_eq; done).
  - clear Hseen Hr Hpre.
    step_cases Hs; locate_event.
    all: try (destruct He as [[? ?]|[[? ?]|[? ?]]]; simplify_eq;
              simpl in Hin; intuition congruence).
Qed.

(** *** Tasks, writes and the frontier *)

Lemma tasks_length_step st a st' t :
  step st a = Some (st', t) -> length (tasks st') = length (tasks st).
Proof. intros H. step_cases H; by rewrite ?length_insert. Qed.

Lemma tasks_length_reaches s0 st tr :
  reaches s0 st tr -> length (tasks st) = length (tasks s0).
Proof.
  induction 1 as [|st tr a st' t Hr IH Hs]; [done|].
  by rewrite (tasks_length_step _ _ _ _ Hs).
Qed.

(** A worker that writes the result ends in the same transition. *)
Lemma writes_step st a st' t :
  step st a = Some (st', t) ->
  count is_write t + count finished (tasks st) <= count finished (tasks st').
Proof.
  intros H. step_cases H.
  all: try tasks_count finished.
  all: unfold count in *; simpl in *; lia.
Qed.

Lemma writes_reaches s0 st tr :
  reaches s0 st tr ->
  count is_write tr + count finished (tasks s0) <= count finished (tasks st).
Proof.
  induction 1 as [|st tr a st' t Hr IH Hs]; [done|].
  pose proof (writes_step _ _ _ _ Hs). rewrite count_app. lia.
Qed.

Lemma MAX_PAGE_step st a st' t :
  step st a = Some (st', t) ->
  MAX_PAGE (sh st') = (MAX_PAGE (sh st) + Z.of_nat (count is_advance t))%Z.
Proof. intros H. step_cases H; unfold count; simpl; lia. Qed.

Lemma MAX_PAGE_reaches s0 st tr :
  reaches s0 st tr ->
  MAX_PAGE (sh st) = (MAX_PAGE (sh s0) + Z.of_nat (count is_advance tr))%Z.
Proof.
  induction 1 as [|st tr a st' t Hr IH Hs]; [unfold count; simpl; lia|].
  rewrite (MAX_PAGE_step _ _ _ _ Hs), IH, count_app. lia.
Qed.

(** The event is set exactly when [set] has been called. *)
Lemma set_calls_step st a st' t :
  step st a = Some (st', t) ->
  found_event (sh st') = found_event (sh st) || existsb is_set_call t.
Proof.
  intros H. step_cases H; simpl; rewrite ?orb_false_r, ?orb_true_r; done.
Qed.

Lemma set_calls_reaches s0 st tr :
  reaches s0 st tr ->
  found_event (sh st) = found_event (sh s0) || existsb is_set_call tr.
Proof.
  induction 1 as [|st tr a st' t Hr IH Hs]; [by rewrite orb_false_r|].
  rewrite (set_calls_step _ _ _ _ Hs), IH, existsb_app. by rewrite orb_assoc.
Qed.

(** The result is written only in the run of a worker that starts with
    the arrival of a page on which the scan succeeds, and [set] is called
    next. *)
Lemma write_emitted st a st' k1 w rating k2 :
  step st a = Some (st', k1 ++ EvWrite w rating :: k2) ->
  exists p data b k3,
    tasks st !! w = Some (WFetch p)
    /\ k1 = [EvFetched w p data]
    /\ scan starship_name (results data) = Some rating
    /\ k2 = EvSet w b :: k3.
Proof. intros H. step_cases H; locate_event; eauto 10. Qed.

(** A page is put into the queue right after the frontier was advanced
    and the event read as unset, in the same transition. *)
Lemma put_emitted st a st' k1 w p k2 :
  step st a = Some (st', k1 ++ EvPut w p :: k2) ->
  found_event (sh st) = false
  /\ exists p0 data, k1 = [EvFetched w p0 data; EvAdvance w; EvIsSet w false].
Proof. intros H. step_cases H; locate_event; eauto. Qed.

(** A fetch starts right after the page came out of the queue. *)
Lemma fetch_start_emitted st a st' k1 w p k2 :
  step st a = Some (st', k1 ++ EvFetchStart w p :: k2) ->
  k1 = [EvGet w (Some p)].
Proof. intros H. step_cases H; locate_event; done. Qed.

(** *** The result *)

Lemma result_ok_step st tr a st' t :
  result_ok st tr -> step st a = Some (st', t) -> result_ok st' (tr ++ t).
Proof.
  intros [Ha Hb] H. split.
  - intros rating. setoid_rewrite in_app_iff.
    step_cases H; simpl; intros Hl.
    all: try (destruct (Ha _ Hl) as (? & ? & ? & ? & ?); by eauto 10).
    all: rewrite lookup_insert_eq in Hl; simplify_eq; eauto 10.
  - intros w' p' data'. rewrite in_app_iff.
    step_cases H; simpl; intros [Hin|Hin] Hs.
    all: try (by eapply Hb).
    all: try (by rewrite lookup_insert_eq).
    all: repeat (destruct Hin as [Hin|Hin]; simplify_eq; try done).
Qed.

Lemma result_ok_reaches s0 st tr :
  result_dict (sh s0) = ∅ -> reaches s0 st tr -> result_ok st tr.
Proof.
  intros H0. induction 1 as [|st tr a st' t Hr IH Hs].
  - split; [intros rating; by rewrite H0|by intros ? ? ? []].
  - by eapply result_ok_step.
Qed.

Lemma returned_ok_step st a st' t :
  returned_ok st -> step st a = Some (st', t) -> returned_ok st'.
Proof.
  intros Hok H r Hr. step_cases H; simpl in *; simplify_eq; try done.
  all: destruct (Hok _ eq_refl) as [_ Hfin].
  all: match goal with
       | Hpc : _ !! _ = Some _ |- _ =>
           pose proof (forallb_lookup _ _ _ _ Hfin Hpc)
       end; done.
Qed.

Lemma returned_ok_reaches s0 st tr :
  returned_ok s0 -> reaches s0 st tr -> returned_ok st.
Proof. induction 2; eauto using returned_ok_step. Qed.

(** *** What the workers read of the event, in order *)

Lemma sorted_snoc (l : list bool) b :
  (forall l1 l2, l = l1 ++ true :: l2 -> forall x, In x l2 -> x = true) ->
  (In true l -> b = true) ->
  forall l1 l2, l ++ [b] = l1 ++ true :: l2 -> forall x, In x l2 -> x = true.
Proof.
  intros Hl Hb l1 l2 Heq x Hx.
  destruct (exists_last (l := true :: l2)) as (l2' & y & Hlast); [done|].
  rewrite Hlast, app_assoc in Heq. apply app_inj_tail in Heq as [-> ->].
  destruct l2' as [|z l2']; simplify_eq/=; [done|].
  apply in_app_iff in Hx as [Hx|[<-|[]]].
  - by eapply (Hl l1 l2').
  - apply Hb, in_app_iff. right. by left.
Qed.

Lemma observations_sorted s0 st tr :
  reaches s0 st tr ->
  (forall l1 l2, observations tr = l1 ++ true :: l2 ->
     forall b, In b l2 -> b = true)
  /\ (In true (observations tr) -> found_event (sh st) = true).
Proof.
  induction 1 as [|st tr a st' t Hr [IH1 IH2] Hs].
  - split; [by intros [] ?|by intros []].
  - unfold observations in *. rewrite omap_app.
    destruct (observations_step _ _ _ _ Hs) as [Ht|Ht];
      unfold observations in Ht; rewrite Ht.
    + rewrite app_nil_r. split; [done|].
      intros Hin. eapply found_event_step; eauto.
    + split.
      * apply sorted_snoc; [done|]. intros Hin. by rewrite IH2.
      * rewrite in_app_iff. intros [Hin|[Hin|[]]].
        -- eapply found_event_step; eauto.
        -- eapply found_event_step; eauto.
  Qed.

Lemma one_transition s0 st tr :
  reaches s0 st tr ->
  count is_transition tr <= 1
  /\ (0 < count is_transition tr -> found_event (sh st) = true).
Proof.
  induction 1 as [|st tr a st' t Hr [IH1 IH2] Hs].
  - unfold count; simpl. split; lia.
  - rewrite count_app.
    destruct (transition_step _ _ _ _ Hs) as [Ht1 Ht2].
    pose proof (transition_sets _ _ _ _ Hs) as Ht3.
    pose proof (found_event_step _ _ _ _ Hs) as Hmono.
    destruct (found_event (sh st)) eqn:Hfe.
    + rewrite Ht2 by done. split; [lia|]. intros _. by apply Hmono.
    + assert (count is_transition tr = 0) as ->.
      { destruct (count is_transition tr); [done|].
        assert (false = true) by (apply IH2; lia). done. }
      split; [lia|]. simpl. done.
Qed.

(** A worker that has written the result has ended. *)
Lemma writer_finished_step st tr a st' t :
  (forall w rating, In (EvWrite w rating) tr ->
     exists pc, tasks st !! w = Some pc /\ finished pc = true) ->
  step st a = Some (st', t) ->
  forall w rating, In (EvWrite w rating) (tr ++ t) ->
    exists pc, tasks st' !! w = Some pc /\ finished pc = true.
Proof.
  intros Hinv H w rating Hin. apply in_app_iff in Hin as [Hin|Hin].
  - destruct (Hinv _ _ Hin) as (pc & Hw & Hpc). clear Hinv Hin.
    step_cases H; simpl in *; eauto.
    all: match goal with
         | |- context [<[?w0 := _]> _ !! ?w] => destruct (decide (w0 = w)) as [->|]
         end.
    all: try (rewrite list_lookup_insert_ne by done; eauto).
    all: simplify_eq; done.
  - clear Hinv. step_cases H; simpl in *; try done.
    all: repeat (destruct Hin as [Hin|Hin]; simplify_eq; try done).
    all: rewrite list_lookup_insert_eq by (by eapply lookup_lt_Some); eauto.
Qed.

Lemma writer_finished s0 st tr w rating :
  reaches s0 st tr -> In (EvWrite w rating) tr ->
  exists pc, tasks st !! w = Some pc /\ finished pc = true.
Proof.
  intros Hr. revert w rating.
  induction Hr as [|st tr a st' t Hr IH Hs]; [by intros ? ? []|].
  by eapply writer_finished_step.
Qed.

Lemma write_sets_step st a st' t :
  step st a = Some (st', t) ->
  0 < count is_write t -> found_event (sh st') = true.
Proof. intros H. step_cases H; unfold count; simpl; try lia; done. Qed.

Lemma write_sets s0 st tr :
  reaches s0 st tr -> 0 < count is_write tr -> found_event (sh st) = true.
Proof.
  induction 1 as [|st tr a st' t Hr IH Hs]; [unfold count; simpl; lia|].
  rewrite count_app. intros Hpos.
  destruct (count is_write t) eqn:Ht.
  - eapply found_event_step; [done|]. apply IH. lia.
  - eapply write_sets_step; [done|]. lia.
Qed.

(** * Properties of the search *)

Local Abbreviation start := find_starship_rating_start.

(** C10: a worker whose wait on the queue times out ends without calling
    [task_done]; in every execution [task_done] has been called at most
    as often as items were taken out of the queue, and it never raises
    its called-too-many-times error. *)
Theorem task_done_within_gets max_page max_concurrency sched st tr :
  run (start max_page max_concurrency) sched = Some (st, tr) ->
  count is_task_done tr <= count is_get tr
  /\ (forall w, ~ In (EvRaise w TaskDoneTooOften) tr)
  /\ (forall w st' t,
        step st (AWorker w TimedOut) = Some (st', t) ->
        t = [EvTimeout w] /\ sh st' = sh st
        /\ tasks st' = <[w := WReturned]> (tasks st)).
Proof.
  intros Hrun. apply run_reaches in Hrun. split; [|split].
  - pose proof (done_le_got _ _ _ Hrun) as H. simpl in H.
    rewrite (count_replicate_false fetching) in H by done. lia.
  - intros w. eapply no_task_done_error; [|done].
    apply outstanding_ok_start.
  - intros w st' t Hs. unfold step in Hs.
    destruct (tasks st !! w) as [[]|]; simpl in Hs; try done.
    destruct (Queue.items (queue (sh st))); [|done].
    cbv [mbind M_bind emit mret M_ret] in Hs. by simplify_eq/=.
Qed.

(** C7: when the fetch of a page fails, the worker logs the failure,
    marks the item done and is back at its loop condition; the event,
    the result, the items of the queue, the other workers and the
    coordinator are left as they were, and with the event unset the
    worker goes on to wait for the next item. *)
Theorem fetch_failure_is_local max_page max_concurrency sched st tr w p :
  run (start max_page max_concurrency) sched = Some (st, tr) ->
  tasks st !! w = Some (WFetch p) ->
  exists q,
    Queue.task_done (queue (sh st)) = Some q
    /\ step st (AWorker w (Response FetchError))
       = Some (State (with_queue q (sh st)) (<[w := WLoop]> (tasks st)) (coord st),
               [EvFetchFailed w p; EvTaskDone w])
    /\ (found_event (sh st) = false ->
        step (State (with_queue q (sh st)) (<[w := WLoop]> (tasks st)) (coord st))
             (AWorker w Scheduled)
        = Some (State (with_queue q (sh st)) (<[w := WGet]> (tasks st)) (coord st),
                [EvIsSet w false])).
Proof.
  intros Hrun Hw. apply run_reaches in Hrun.
  pose proof (outstanding_ok_reaches _ _ _ (outstanding_ok_start _ _) Hrun) as Hok.
  pose proof (count_lookup fetching _ _ _ Hw eq_refl) as Hpos.
  pose proof (lookup_lt_Some _ _ _ Hw) as Hlt.
  unfold outstanding_ok in Hok.
  destruct st as [[mp fe rd [its [|n]]] tk co]; simpl in *; [lia|].
  eexists. split; [done|]. split.
  - unfold step; simpl. by rewrite Hw.
  - intros ->. unfold step; simpl.
    rewrite list_lookup_insert_eq by done. simpl.
    by rewrite list_insert_insert_eq.
Qed.

(** C8: the values read from the event never go from set back to unset;
    [set] finds the event unset at most once in an execution; and from
    any state in which the event is set, it is set in every state that
    follows. *)
Theorem found_event_monotonic max_page max_concurrency sched st tr :
  run (start max_page max_concurrency) sched = Some (st, tr) ->
  (forall l1 l2, observations tr = l1 ++ true :: l2 ->
     forall b, In b l2 -> b = true)
  /\ count is_transition tr <= 1
  /\ (In true (observations tr) -> found_event (sh st) = true)
  /\ (forall sched' st' tr',
        run st sched' = Some (st', tr') ->
        found_event (sh st) = true -> found_event (sh st') = true).
Proof.
  intros Hrun. apply run_reaches in Hrun.
  destruct (observations_sorted _ _ _ Hrun) as [H1 H2].
  destruct (one_transition _ _ _ Hrun) as [H3 _].
  repeat split; try done.
  intros sched' st' tr' Hrun' Hfe. apply run_reaches in Hrun'.
  by eapply found_event_reaches.
Qed.

(** C4: a worker starts a fetch only for the page it has just taken out
    of the queue, and only if it has never read the event as set; and no
    page number is put into the queue once [set] has been called.  So
    after the event is set the only fetches that start are those of
    workers that had passed the loop condition before, for pages that
    were in the queue before. *)
Theorem no_fetch_after_seeing_set max_page max_concurrency sched st tr tr1 w p tr2 :
  run (start max_page max_concurrency) sched = Some (st, tr) ->
  tr = tr1 ++ EvFetchStart w p :: tr2 ->
  ~ saw_set w tr1
  /\ (exists tr0, tr1 = tr0 ++ [EvGet w (Some p)])
  /\ (forall t1 w' p' t2,
        tr = t1 ++ EvPut w' p' :: t2 -> existsb is_set_call t1 = false).
Proof.
  intros Hrun Heq. apply run_reaches in Hrun. split; [|split].
  - eapply active_not_seen; eauto.
  - destruct (reaches_emitted _ _ _ _ _ _ Hrun Heq)
      as (st1 & pre & a & st2 & k1 & k2 & post & Hpre & Hs & -> & ->).
    apply fetch_start_emitted in Hs as ->. eauto.
  - intros t1 w' p' t2 Heq'.
    destruct (reaches_emitted _ _ _ _ _ _ Hrun Heq')
      as (st1 & pre & a & st2 & k1 & k2 & post & Hpre & Hs & -> & ->).
    apply put_emitted in Hs as (Hfe & p0 & data & ->).
    rewrite (set_calls_reaches _ _ _ Hpre) in Hfe.
    apply orb_false_iff in Hfe as [_ Hfe].
    by rewrite existsb_app, Hfe.
Qed.

(** C9: on a page without a match that has a next page and is the
    frontier, the worker adds one to [MAX_PAGE] whatever the event holds,
    and puts the next page number into the queue exactly when it reads
    the event as unset; in every execution a page is put by a worker
    that has never read the event as set, right after it advanced the
    frontier and read the event as unset. *)
Theorem frontier_puts_only_while_unset
    max_page max_concurrency sched st tr w p data n :
  run (start max_page max_concurrency) sched = Some (st, tr) ->
  tasks st !! w = Some (WFetch p) ->
  scan starship_name (results data) = None ->
  next data = NextUrl n ->
  p = MAX_PAGE (sh st) ->
  (exists st' t,
      step st (AWorker w (Response (FetchOK data))) = Some (st', t)
      /\ MAX_PAGE (sh st') = (MAX_PAGE (sh st) + 1)%Z
      /\ In (EvAdvance w) t
      /\ In (EvIsSet w (found_event (sh st))) t
      /\ Queue.items (queue (sh st'))
         = (if found_event (sh st) then Queue.items (queue (sh st))
            else Queue.items (queue (sh st)) ++ [Some n])
      /\ (In (EvPut w n) t <-> found_event (sh st) = false))
  /\ (forall tr1 w' p' tr2,
        tr = tr1 ++ EvPut w' p' :: tr2 ->
        ~ saw_set w' tr1
        /\ exists tr0, tr1 = tr0 ++ [EvAdvance w'; EvIsSet w' false]).
Proof.
  intros Hrun Hw Hscan Hnext ->. apply run_reaches in Hrun. split.
  - pose proof (outstanding_ok_reaches _ _ _ (outstanding_ok_start _ _) Hrun) as Hok.
    pose proof (count_lookup fetching _ _ _ Hw eq_refl) as Hpos.
    unfold outstanding_ok in Hok.
    destruct st as [[mp fe rd [its [|u]]] tk co]; simpl in *; [lia|].
    unfold step; simpl. rewrite Hw; simpl.
    cbv beta iota zeta delta
      [fetched frontier mbind M_bind mret M_ret emit is_set read_MAX_PAGE
       advance put_nowait task_done Queue.task_done Queue.put_nowait
       with_queue MAX_PAGE found_event result_dict queue Queue.items
       Queue.unfinished_tasks].
    rewrite Hscan, Hnext, Z.eqb_refl.
    destruct fe; simpl; eexists _, _; (split; [reflexivity|]); simpl.
    all: repeat split; auto; try (intros; intuition congruence).
  - intros tr1 w' p' tr2 Heq. split.
    + eapply active_not_seen; eauto.
    + destruct (reaches_emitted _ _ _ _ _ _ Hrun Heq)
        as (st1 & pre & a & st2 & k1 & k2 & post & Hpre & Hs & -> & ->).
      apply put_emitted in Hs as (_ & p0 & data0 & ->).
      exists (pre ++ [EvFetched w' p0 data0]). by rewrite <- app_assoc.
Qed.

(** C2, as the code has it: the result is written at most once by each
    worker, hence at most [max_concurrency] times in a search; a worker
    writes it on the arrival of a page on which the scan finds the
    target, writes the rating the scan returned, and calls [set] next,
    whether the event was set already or not; once the result has been
    written the event is set. *)
Theorem result_written_once_per_worker max_page max_concurrency sched st tr :
  run (start max_page max_concurrency) sched = Some (st, tr) ->
  count is_write tr <= max_concurrency
  /\ (forall tr1 w rating tr2,
        tr = tr1 ++ EvWrite w rating :: tr2 ->
        (forall rating', ~ In (EvWrite w rating') tr1)
        /\ (exists tr0 p data,
              tr1 = tr0 ++ [EvFetched w p data]
              /\ scan starship_name (results data) = Some rating)
        /\ (exists b tr3, tr2 = EvSet w b :: tr3))
  /\ (0 < count is_write tr -> found_event (sh st) = true).
Proof.
  intros Hrun. apply run_reaches in Hrun. split; [|split].
  - pose proof (writes_reaches _ _ _ Hrun) as H.
    pose proof (count_le_length finished (tasks st)) as Hle.
    rewrite (tasks_length_reaches _ _ _ Hrun) in Hle. simpl in Hle.
    rewrite length_replicate in Hle. lia.
  - intros tr1 w rating tr2 Heq.
    destruct (reaches_emitted _ _ _ _ _ _ Hrun Heq)
      as (st1 & pre & a & st2 & k1 & k2 & post & Hpre & Hs & -> & ->).
    apply write_emitted in Hs as (p & data & b & k3 & Hw & -> & Hscan & ->).
    split; [|split].
    + intros rating' Hin. apply in_app_iff in Hin as [Hin|[Hin|[]]]; [|done].
      destruct (writer_finished _ _ _ _ _ Hpre Hin) as (pc & Hw' & Hfin).
      by simplify_eq.
    + eauto.
    + simpl. eauto.
  - by eapply write_sets.
Qed.

(** C6, as the code has it: the event, the dictionary, the queue and the
    tasks are created anew by each call, but [MAX_PAGE] is the global of
    the module: a search leaves it raised by one for every frontier page
    it went past, and the call that follows seeds its queue with the
    pages [0..MAX_PAGE] of that value. *)
Theorem only_MAX_PAGE_outlives_a_search
    max_page max_concurrency sched st tr next_concurrency :
  run (start max_page max_concurrency) sched = Some (st, tr) ->
  MAX_PAGE (sh st) = (max_page + Z.of_nat (count is_advance tr))%Z
  /\ found_event (sh (start (MAX_PAGE (sh st)) next_concurrency)) = false
  /\ result_dict (sh (start (MAX_PAGE (sh st)) next_concurrency)) = ∅
  /\ tasks (start (MAX_PAGE (sh st)) next_concurrency)
     = replicate next_concurrency WLoop
  /\ coord (start (MAX_PAGE (sh st)) next_concurrency) = CJoin
  /\ Queue.items (queue (sh (start (MAX_PAGE (sh st)) next_concurrency)))
     = map Some (seqZ 0 (max_page + Z.of_nat (count is_advance tr) + 1))
  /\ Queue.unfinished_tasks (queue (sh (start (MAX_PAGE (sh st)) next_concurrency)))
     = length (seqZ 0 (max_page + Z.of_nat (count is_advance tr) + 1)).
Proof.
  intros Hrun. apply run_reaches in Hrun.
  pose proof (MAX_PAGE_reaches _ _ _ Hrun) as H. simpl in H.
  rewrite H. repeat split; simpl.
  - by rewrite seed_items.
  - by rewrite seed_unfinished.
Qed.

(** *** What holds of the paths that C3 and C5 are about *)

(** When the reply to a fetch arrives, the worker calls [task_done]
    exactly once on every path but one: on the frontier page, an
    unreadable [next] link raises before line 64 is reached, and the
    item stays counted in the queue. *)
Lemma task_done_once_unless_unreadable
    max_page max_concurrency sched st tr w p o :
  run (start max_page max_concurrency) sched = Some (st, tr) ->
  tasks st !! w = Some (WFetch p) ->
  exists st' t,
    step st (AWorker w (Response o)) = Some (st', t)
    /\ (count is_task_done t = 1
        \/ (exists data url,
              o = FetchOK data
              /\ scan starship_name (results data) = None
              /\ next data = NextUnreadable url
              /\ p = MAX_PAGE (sh st)
              /\ count is_task_done t = 0
              /\ tasks st' = <[w := WRaised (UnreadableNext url)]> (tasks st)
              /\ queue (sh st') = queue (sh st))).
Proof.
  intros Hrun Hw. apply run_reaches in Hrun.
  pose proof (outstanding_ok_reaches _ _ _ (outstanding_ok_start _ _) Hrun) as Hok.
  pose proof (count_lookup fetching _ _ _ Hw eq_refl) as Hpos.
  unfold outstanding_ok in Hok.
  destruct st as [[mp fe rd [its [|u]]] tk co]; simpl in *; [lia|].
  unfold step; simpl. rewrite Hw; simpl.
  cbv beta iota zeta delta
    [fetched frontier mbind M_bind mret M_ret emit raise is_set set_event
     store_rating read_MAX_PAGE advance put_nowait task_done
     Queue.task_done Queue.put_nowait with_queue MAX_PAGE found_event
     result_dict queue Queue.items Queue.unfinished_tasks].
  destruct o as [data|]; [|simpl; eauto].
  destruct (scan starship_name (results data)) eqn:Hscan; [simpl; eauto|].
  destruct (next data) eqn:Hnext; [simpl; eauto|..].
  - destruct (Z.eqb p mp); [destruct fe|]; simpl; eauto.
  - destruct (Z.eqb p mp) eqn:Hp; simpl; [|eauto].
    apply Z.eqb_eq in Hp as ->.
    eexists _, _. split; [reflexivity|]. right. eauto 10.
Qed.

(** When the coordinator returns, it returns the rating of a starship
    whose name equals the target up to letter case, taken from a page
    that has arrived; and it returns [None] only if no page that has
    arrived lists such a starship. *)
Lemma returned_rating_is_a_match max_page max_concurrency sched st tr r :
  run (start max_page max_concurrency) sched = Some (st, tr) ->
  coord st = CReturned r ->
  match r with
  | Some rating =>
      exists w p data s,
        In (EvFetched w p data) tr /\ In s (results data)
        /\ lower (name s) = lower starship_name
        /\ hyperdrive_rating s = rating
  | None =>
      forall w p data s,
        In (EvFetched w p data) tr -> In s (results data) ->
        lower (name s) <> lower starship_name
  end.
Proof.
  intros Hrun Hret. apply run_reaches in Hrun.
  assert (returned_ok (start max_page max_concurrency)) as H0 by (by intros r').
  destruct (returned_ok_reaches _ _ _ H0 Hrun _ Hret) as [-> _].
  destruct (result_ok_reaches (start max_page max_concurrency) _ _ eq_refl Hrun)
    as [Ha Hb].
  destruct (result_dict (sh st) !! "hyperdrive_rating") as [rating|] eqn:Hl.
  - destruct (Ha _ eq_refl) as (w & p & data & Hin & Hscan).
    apply scan_Some in Hscan as (s & ? & ? & ?). eauto 10.
  - intros w p data s Hin Hs Heq.
    apply (Hb _ _ _ Hin); [|done]. by eapply scan_finds.
Qed.

End Executions.


(** * The search on the scenarios *)

(** A state in which no task can run stays as it is. *)
Lemma stuck_forever name st sched st' tr' :
  (forall a, step name st a = None) ->
  run name st sched = Some (st', tr') -> st' = st /\ tr' = [].
Proof.
  intros Hstuck. destruct sched as [|a sched]; simpl.
  - by intros [= <- <-].
  - by rewrite Hstuck.
Qed.

Ltac no_step :=
  let a := fresh "a" in
  intros a; destruct a as [[|[|[|?]]] []|]; reflexivity.

(** C1: with one worker and the target on page 1, the worker sets the
    event and returns while page 2 is still in the queue; nothing marks
    that item done, so [queue.join()] never returns and the call hangs,
    although the chain of pages is finite. *)
Theorem join_never_returns_after_early_match :
  exists st tr,
    run "X-wing" (find_starship_rating_start 2 1) early_match = Some (st, tr)
    /\ found_event (sh st) = true
    /\ tasks st = [WReturned]
    /\ Queue.items (queue (sh st)) = [Some 2%Z]
    /\ Queue.unfinished_tasks (queue (sh st)) = 1
    /\ coord st = CJoin
    /\ (forall a, step "X-wing" st a = None)
    /\ (forall sched st' tr',
          run "X-wing" st sched = Some (st', tr') -> coord st' = CJoin).
Proof.
  eexists _, _. split; [vm_compute; reflexivity|].
  do 5 (split; [reflexivity|]).
  assert (forall a,
    step "X-wing"
      (State (Shared 2 true (<["hyperdrive_rating" := "1.0"]> ∅)
                (Queue.Make [Some 2%Z] 1)) [WReturned] CJoin) a = None) as Hstuck
    by no_step.
  split; [exact Hstuck|].
  intros sched st' tr' Hrun.
  by destruct (stuck_forever _ _ _ _ _ Hstuck Hrun) as [-> _].
Qed.

(** C3: on the frontier page an unreadable [next] link makes lines 57-59
    raise before [task_done] is reached: page 2 was taken out of the queue
    and is never marked done, where a failed fetch is caught and marked
    done.  Three items were taken, two were marked done, and the last one
    keeps [queue.join()] waiting for ever. *)
Theorem unreadable_next_leaves_item_outstanding :
  exists st tr tr0,
    run "Death Star" (find_starship_rating_start 2 1) unreadable_next = Some (st, tr)
    /\ tr = tr0 ++ [EvGet 0 (Some 2%Z); EvFetchStart 0 2;
                    EvFetched 0 2 page_2_no_param;
                    EvRaise 0 (UnreadableNext "https://swapi.dev/api/starships/")]
    /\ count is_get tr = 3
    /\ count is_task_done tr = 2
    /\ tasks st = [WRaised (UnreadableNext "https://swapi.dev/api/starships/")]
    /\ Queue.items (queue (sh st)) = []
    /\ Queue.unfinished_tasks (queue (sh st)) = 1
    /\ coord st = CJoin
    /\ (forall a, step "Death Star" st a = None).
Proof.
  eexists _, _,
    (firstn 11 (outcome (run "Death Star" (find_starship_rating_start 2 1)
                             unreadable_next)).2).
  split; [vm_compute; reflexivity|].
  do 7 (split; [reflexivity|]).
  no_step.
Qed.

(** C5: with two workers, a target written in lower case and page 1
    arriving before page 0 fails, the rating of the Millennium Falcon is
    found and stored, but page 2 is left in the queue when both workers
    return: the call hangs in [queue.join()] and returns nothing. *)
Theorem match_found_but_never_returned :
  exists st tr,
    run "millennium falcon" (find_starship_rating_start 2 2) match_before_failure
    = Some (st, tr)
    /\ In (EvFetched 1 1 page_1) tr
    /\ same_but_case "Millennium Falcon" "millennium falcon" = true
    /\ scan "millennium falcon" (results page_1) = Some "0.5"
    /\ result_dict (sh st) !! "hyperdrive_rating" = Some "0.5"
    /\ tasks st = [WReturned; WReturned]
    /\ Queue.items (queue (sh st)) = [Some 2%Z]
    /\ coord st = CJoin
    /\ (forall a, step "millennium falcon" st a = None).
Proof.
  eexists _, _. split; [vm_compute; reflexivity|].
  split; [simpl; tauto|].
  do 6 (split; [reflexivity|]).
  no_step.
Qed.

(** C2, as stated, fails: with pages 1 and 2 both listing the target and
    fetched at the same time, the result is written twice, the second time
    by a worker whose [set] finds the event set already. *)
Lemma result_written_twice :
  exists st tr tr1 tr2,
    run "y-wing" (find_starship_rating_start 2 3) two_matches = Some (st, tr)
    /\ count is_write tr = 2
    /\ In (EvWrite 1 "1.0") tr
    /\ tr = tr1 ++ EvWrite 2 "1.5" :: EvSet 2 true :: tr2
    /\ result_dict (sh st) !! "hyperdrive_rating" = Some "1.5".
Proof.
  eexists _, _,
    (firstn 16 two_matches_end.2),
    [EvTaskDone 2].
  split; [vm_compute; reflexivity|].
  split; [reflexivity|]. split; [simpl; tauto|].
  split; reflexivity.
Qed.

(** C6, as stated, fails: a search that goes past the frontier page 2
    returns with [MAX_PAGE] at 3, and the call that follows seeds its
    queue with four pages where the first one seeded three. *)
Lemma MAX_PAGE_outlives_the_search :
  exists st tr,
    run "Death Star" (find_starship_rating_start 2 1) whole_collection = Some (st, tr)
    /\ coord st = CReturned None
    /\ MAX_PAGE (sh st) = 3%Z
    /\ Queue.items (queue (sh (find_starship_rating_start 2 1)))
       = [Some 0%Z; Some 1%Z; Some 2%Z]
    /\ Queue.items (queue (sh (find_starship_rating_start (MAX_PAGE (sh st)) 1)))
       = [Some 0%Z; Some 1%Z; Some 2%Z; Some 3%Z].
Proof.
  eexists _, _. split; [vm_compute; reflexivity|].
  repeat split; reflexivity.
Qed.

(** ** The properties on the scenarios *)

Lemma whole_collection_runs :
  run "Death Star" (find_starship_rating_start 2 1) whole_collection
  = Some (whole_collection_end.1, whole_collection_end.2).
Proof. vm_compute. reflexivity. Defined.

Lemma at_the_frontier_runs :
  run "Death Star" (find_starship_rating_start 2 1) at_the_frontier
  = Some (at_the_frontier_end.1, at_the_frontier_end.2).
Proof. vm_compute. reflexivity. Defined.

Lemma two_matches_runs :
  run "y-wing" (find_starship_rating_start 2 3) two_matches
  = Some (two_matches_end.1, two_matches_end.2).
Proof. vm_compute. reflexivity. Defined.

Lemma task_done_within_gets_witness :
  run "Death Star" (find_starship_rating_start 2 1) whole_collection
  = Some (whole_collection_end.1, whole_collection_end.2)
  /\ count is_task_done whole_collection_end.2 <= count is_get whole_collection_end.2
  /\ (forall w, ~ In (EvRaise w TaskDoneTooOften) whole_collection_end.2)
  /\ (forall w st' t,
        step "Death Star" whole_collection_end.1 (AWorker w TimedOut) = Some (st', t) ->
        t = [EvTimeout w] /\ sh st' = sh whole_collection_end.1
        /\ tasks st' = <[w := WReturned]> (tasks whole_collection_end.1)).
Proof.
  split; [exact whole_collection_runs|].
  exact (task_done_within_gets "Death Star" 2 1 whole_collection _ _
           whole_collection_runs).
Defined.

Lemma fetch_failure_is_local_witness :
  run "Death Star" (find_starship_rating_start 2 1) at_the_frontier
  = Some (at_the_frontier_end.1, at_the_frontier_end.2)
  /\ tasks at_the_frontier_end.1 !! 0 = Some (WFetch 2)
  /\ exists q,
      Queue.task_done (queue (sh at_the_frontier_end.1)) = Some q
      /\ step "Death Star" at_the_frontier_end.1 (AWorker 0 (Response FetchError))
         = Some (State (with_queue q (sh at_the_frontier_end.1))
                       (<[0 := WLoop]> (tasks at_the_frontier_end.1))
                       (coord at_the_frontier_end.1),
                 [EvFetchFailed 0 2; EvTaskDone 0])
      /\ (found_event (sh at_the_frontier_end.1) = false ->
          step "Death Star"
               (State (with_queue q (sh at_the_frontier_end.1))
                      (<[0 := WLoop]> (tasks at_the_frontier_end.1))
                      (coord at_the_frontier_end.1))
               (AWorker 0 Scheduled)
          = Some (State (with_queue q (sh at_the_frontier_end.1))
                        (<[0 := WGet]> (tasks at_the_frontier_end.1))
                        (coord at_the_frontier_end.1),
                  [EvIsSet 0 false])).
Proof.
  split; [exact at_the_frontier_runs|].
  split; [reflexivity|].
  exact (fetch_failure_is_local "Death Star" 2 1 at_the_frontier _ _ 0 2
           at_the_frontier_runs eq_refl).
Defined.

Lemma found_event_monotonic_witness :
  run "Death Star" (find_starship_rating_start 2 1) whole_collection
  = Some (whole_collection_end.1, whole_collection_end.2)
  /\ (forall l1 l2, observations whole_collection_end.2 = l1 ++ true :: l2 ->
        forall b, In b l2 -> b = true)
  /\ count is_transition whole_collection_end.2 <= 1
  /\ (In true (observations whole_collection_end.2) ->
      found_event (sh whole_collection_end.1) = true)
  /\ (forall sched' st' tr',
        run "Death Star" whole_collection_end.1 sched' = Some (st', tr') ->
        found_event (sh whole_collection_end.1) = true ->
        found_event (sh st') = true).
Proof.
  split; [exact whole_collection_runs|].
  exact (found_event_monotonic "Death Star" 2 1 whole_collection _ _
           whole_collection_runs).
Defined.

Lemma no_fetch_after_seeing_set_witness :
  run "Death Star" (find_starship_rating_start 2 1) whole_collection
  = Some (whole_collection_end.1, whole_collection_end.2)
  /\ whole_collection_end.2
     = firstn 20 whole_collection_end.2 ++ EvFetchStart 0 3
       :: skipn 21 whole_collection_end.2
  /\ ~ saw_set 0 (firstn 20 whole_collection_end.2)
  /\ (exists tr0, firstn 20 whole_collection_end.2 = tr0 ++ [EvGet 0 (Some 3%Z)])
  /\ (forall t1 w' p' t2,
        whole_collection_end.2 = t1 ++ EvPut w' p' :: t2 ->
        existsb is_set_call t1 = false).
Proof.
  split; [exact whole_collection_runs|].
  split; [vm_compute; reflexivity|].
  refine (no_fetch_after_seeing_set "Death Star" 2 1 whole_collection _ _ _ 0 3 _
            whole_collection_runs _).
  vm_compute. reflexivity.
Defined.

Lemma frontier_puts_only_while_unset_witness :
  run "Death Star" (find_starship_rating_start 2 1) at_the_frontier
  = Some (at_the_frontier_end.1, at_the_frontier_end.2)
  /\ tasks at_the_frontier_end.1 !! 0 = Some (WFetch 2)
  /\ scan "Death Star" (results page_2) = None
  /\ next page_2 = NextUrl 3
  /\ 2%Z = MAX_PAGE (sh at_the_frontier_end.1)
  /\ (exists st' t,
        step "Death Star" at_the_frontier_end.1 (AWorker 0 (Response (FetchOK page_2)))
        = Some (st', t)
        /\ MAX_PAGE (sh st') = (MAX_PAGE (sh at_the_frontier_end.1) + 1)%Z
        /\ In (EvAdvance 0) t
        /\ In (EvIsSet 0 (found_event (sh at_the_frontier_end.1))) t
        /\ Queue.items (queue (sh st'))
           = (if found_event (sh at_the_frontier_end.1)
              then Queue.items (queue (sh at_the_frontier_end.1))
              else Queue.items (queue (sh at_the_frontier_end.1)) ++ [Some 3%Z])
        /\ (In (EvPut 0 3) t <-> found_event (sh at_the_frontier_end.1) = false))
  /\ (forall tr1 w' p' tr2,
        at_the_frontier_end.2 = tr1 ++ EvPut w' p' :: tr2 ->
        ~ saw_set w' tr1
        /\ exists tr0, tr1 = tr0 ++ [EvAdvance w'; EvIsSet w' false]).
Proof.
  split; [exact at_the_frontier_runs|].
  do 4 (split; [reflexivity|]).
  exact (frontier_puts_only_while_unset "Death Star" 2 1 at_the_frontier _ _ 0 2
           page_2 3 at_the_frontier_runs eq_refl eq_refl eq_refl eq_refl).
Defined.

Lemma result_written_once_per_worker_witness :
  run "y-wing" (find_starship_rating_start 2 3) two_matches
  = Some (two_matches_end.1, two_matches_end.2)
  /\ count is_write two_matches_end.2 <= 3
  /\ (forall tr1 w rating tr2,
        two_matches_end.2 = tr1 ++ EvWrite w rating :: tr2 ->
        (forall rating', ~ In (EvWrite w rating') tr1)
        /\ (exists tr0 p data,
              tr1 = tr0 ++ [EvFetched w p data]
              /\ scan "y-wing" (results data) = Some rating)
        /\ (exists b tr3, tr2 = EvSet w b :: tr3))
  /\ (0 < count is_write two_matches_end.2 ->
      found_event (sh two_matches_end.1) = true).
Proof.
  split; [exact two_matches_runs|].
  exact (result_written_once_per_worker "y-wing" 2 3 two_matches _ _
           two_matches_runs).
Defined.

Lemma only_MAX_PAGE_outlives_a_search_witness :
  run "Death Star" (find_starship_rating_start 2 1) whole_collection
  = Some (whole_collection_end.1, whole_collection_end.2)
  /\ MAX_PAGE (sh whole_collection_end.1)
     = (2 + Z.of_nat (count is_advance whole_collection_end.2))%Z
  /\ found_event (sh (find_starship_rating_start (MAX_PAGE (sh whole_collection_end.1)) 5))
     = false
  /\ result_dict (sh (find_starship_rating_start (MAX_PAGE (sh whole_collection_end.1)) 5))
     = ∅
  /\ tasks (find_starship_rating_start (MAX_PAGE (sh whole_collection_end.1)) 5)
     = replicate 5 WLoop
  /\ coord (find_starship_rating_start (MAX_PAGE (sh whole_collection_end.1)) 5) = CJoin
  /\ Queue.items
       (queue (sh (find_starship_rating_start (MAX_PAGE (sh whole_collection_end.1)) 5)))
     = map Some (seqZ 0 (2 + Z.of_nat (count is_advance whole_collection_end.2) + 1))
  /\ Queue.unfinished_tasks
       (queue (sh (find_starship_rating_start (MAX_PAGE (sh whole_collection_end.1)) 5)))
     = length (seqZ 0 (2 + Z.of_nat (count is_advance whole_collection_end.2) + 1)).
Proof.
  split; [exact whole_collection_runs|].
  exact (only_MAX_PAGE_outlives_a_search "Death Star" 2 1 whole_collection _ _ 5
           whole_collection_runs).
Defined.


(** * More on the search *)

Lemma last_write_snoc tr e :
  last_write (tr ++ [e])
  = match e with EvWrite _ r => Some r | _ => last_write tr end.
Proof. unfold last_write. by rewrite foldl_app. Qed.

Lemma last_write_app tr t :
  last_write (tr ++ t)
  = match last_write t with Some r => Some r | None => last_write tr end.
Proof.
  induction t as [|e t IH] using rev_ind.
  - by rewrite app_nil_r.
  - rewrite app_assoc, !last_write_snoc, IH.
    by destruct e.
Qed.

Ltac unfold_step := unfold step.

Section Further.

Context (starship_name : string).

Local Abbreviation step := (step starship_name).
Local Abbreviation run := (run starship_name).
Local Abbreviation reaches := (reaches starship_name).
Local Abbreviation start := find_starship_rating_start.

(** *** Exact bookkeeping of the queue *)

Lemma accounted_step st a st' t :
  accounted st -> step st a = Some (st', t) -> accounted st'.
Proof.
  unfold accounted. intros Hok H. step_cases H.
  all: try match goal with
           | Hpc : _ !! _ = Some (WFetch _) |- _ =>
               pose proof (count_lookup fetching _ _ _ Hpc eq_refl)
           end.
  all: try (tasks_count fetching; tasks_count dropped).
  all: rewrite ?put_sentinels_items, ?put_sentinels_unfinished, ?length_app,
         ?length_replicate; simpl in *.
  all: lia.
Qed.

Lemma accounted_start max_page n : accounted (start max_page n).
Proof.
  unfold accounted, find_starship_rating_start; simpl.
  rewrite seed_items, seed_unfinished. simpl. rewrite List.length_map.
  rewrite !count_replicate_false by done. lia.
Qed.

Lemma accounted_reaches s0 st tr :
  accounted s0 -> reaches s0 st tr -> accounted st.
Proof. induction 2; eauto using accounted_step. Qed.

(** *** After [join] *)

Lemma in_replicate_None {A} n (x : option A) : In x (replicate n None) -> x = None.
Proof. induction n as [|n IH]; simpl; [done|]. intros [<-|H]; auto. Qed.

Lemma after_join_step st tr a st' t :
  accounted st -> after_join st tr ->
  step st a = Some (st', t) -> after_join st' (tr ++ t).
Proof.
  unfold accounted, after_join. intros Hacc Hinv H Hin.
  apply in_app_iff in Hin as [Hin|Hin].
  - destruct (Hinv Hin) as [Hf Hnone]. clear Hinv Hin Hacc.
    step_cases H.
    all: try match goal with
             | Hpc : _ !! _ = Some (WFetch _) |- _ =>
                 pose proof (count_lookup fetching _ _ _ Hpc eq_refl); lia
             end.
    all: try match goal with
             | H : forall item, Some ?z = item \/ _ -> item = None |- _ =>
                 by specialize (H (Some z) (or_introl eq_refl))
             end.
    all: try tasks_count fetching.
    all: split; [lia|]; auto.
    all: intros item; rewrite ?put_sentinels_items; simpl; rewrite ?in_app_iff.
    all: intros [?|?]; eauto using in_replicate_None.
  - clear Hinv. step_cases H; simpl in Hin; try solve [intuition congruence].
    match goal with H : Nat.eqb _ 0 = true |- _ => apply Nat.eqb_eq in H end.
    match goal with
    | H : _ = length ?l + _ + _ |- _ => destruct l; simpl in H; [|lia]
    end.
    split; [lia|]. intros item. rewrite put_sentinels_items. simpl.
    apply in_replicate_None.
Qed.

Lemma after_join_reaches max_page n st tr :
  reaches (start max_page n) st tr -> after_join st tr.
Proof.
  induction 1 as [|st tr a st' t Hr IH Hs]; [by intros []|].
  eapply after_join_step; [|done..].
  by eapply accounted_reaches; [apply accounted_start|].
Qed.

(** A transition that fetches or processes a page needs a page in the
    queue or a fetch under way. *)
Lemma work_step st a st' t e :
  step st a = Some (st', t) -> In e t -> is_work e = true ->
  0 < count fetching (tasks st)
  \/ exists p, In (Some p) (Queue.items (queue (sh st))).
Proof.
  intros H Hin He. step_cases H; simpl in Hin.
  all: try match goal with
           | Hpc : _ !! _ = Some (WFetch _) |- _ =>
               left; pose proof (count_lookup fetching _ _ _ Hpc eq_refl); lia
           end.
  all: try (right; eexists; by left).
  all: repeat (destruct Hin as [Hin|Hin]; simplify_eq; try done).
Qed.

Lemma joined_alone st a st' t :
  step st a = Some (st', t) -> In EvJoined t -> t = [EvJoined].
Proof.
  intros H Hin. step_cases H; simpl in Hin; try done.
  all: repeat (destruct Hin as [Hin|Hin]; simplify_eq; try done).
Qed.

(** *** The last write *)

Lemma last_write_step st a st' t :
  step st a = Some (st', t) ->
  result_dict (sh st') !! "hyperdrive_rating"
  = match last_write t with
    | Some r => Some r
    | None => result_dict (sh st) !! "hyperdrive_rating"
    end.
Proof. intros H. step_cases H; by rewrite ?lookup_insert_eq. Qed.

Lemma last_write_reaches s0 st tr :
  result_dict (sh s0) = ∅ -> reaches s0 st tr ->
  result_dict (sh st) !! "hyperdrive_rating" = last_write tr.
Proof.
  intros H0. induction 1 as [|st tr a st' t Hr IH Hs]; [by rewrite H0|].
  by rewrite last_write_app, (last_write_step _ _ _ _ Hs), IH.
Qed.

(** *** Properties *)

(** X4: in every execution the counter [_unfinished_tasks] of the queue is
    exactly the number of items waiting in the queue, plus the pages being
    fetched, plus the pages a worker dropped by raising on an unreadable
    [next] link. *)
Theorem unfinished_tasks_exact max_page max_concurrency sched st tr :
  run (start max_page max_concurrency) sched = Some (st, tr) ->
  Queue.unfinished_tasks (queue (sh st))
  = length (Queue.items (queue (sh st)))
    + count fetching (tasks st) + count dropped (tasks st).
Proof.
  intros Hrun. apply run_reaches in Hrun.
  exact (accounted_reaches _ _ _ (accounted_start _ _) Hrun).
Qed.

(** X5: once [queue.join()] has returned, no page is fetched or processed
    any more: every later event is a worker reading the event, taking a
    sentinel, marking it done or timing out, or the coordinator
    returning. *)
Theorem no_work_after_join max_page max_concurrency sched st tr tr1 tr2 e :
  run (start max_page max_concurrency) sched = Some (st, tr) ->
  tr = tr1 ++ EvJoined :: tr2 ->
  In e tr2 ->
  is_work e = false.
Proof.
  intros Hrun Heq Hin. apply run_reaches in Hrun.
  apply in_split in Hin as (ta & tb & ->).
  assert (tr = (tr1 ++ EvJoined :: ta) ++ e :: tb) as Heq'
    by (by rewrite Heq, <- app_assoc).
  destruct (reaches_emitted _ _ _ _ _ _ _ Hrun Heq')
    as (st1 & pre & a & st2 & k1 & k2 & post & Hpre & Hs & Hk & _).
  assert (In EvJoined (pre ++ k1)) as Hj
    by (rewrite <- Hk, in_app_iff; right; by left).
  apply in_app_iff in Hj as [Hj|Hj].
  - destruct (after_join_reaches _ _ _ _ Hpre Hj) as [Hf Hnone].
    destruct (is_work e) eqn:He; [|done].
    destruct (work_step _ _ _ _ e Hs) as [Hpos|[p Hp]]; [|done|lia|].
    + apply in_app_iff. right. by left.
    + by specialize (Hnone _ Hp).
  - assert (In EvJoined (k1 ++ e :: k2)) as Hj'
      by (apply in_app_iff; by left).
    pose proof (joined_alone _ _ _ _ Hs Hj') as Hone.
    destruct k1 as [|? [|? ?]]; simplify_eq/=; done.
Qed.

(** X6: the value [find_starship_rating] returns is the rating stored by
    the last write to [result_dict], and [None] if nothing was written. *)
Theorem returned_is_last_write max_page max_concurrency sched st tr r :
  run (start max_page max_concurrency) sched = Some (st, tr) ->
  coord st = CReturned r ->
  r = last_write tr.
Proof.
  intros Hrun Hret. apply run_reaches in Hrun.
  assert (returned_ok (start max_page max_concurrency)) as H0 by (by intros r').
  destruct (returned_ok_reaches _ _ _ _ H0 Hrun _ Hret) as [-> _].
  by apply (last_write_reaches (start max_page max_concurrency)).
Qed.

(** X7: with [max_concurrency = 0] no task is created, the seeded pages
    stay in the queue and [queue.join()] never returns: no transition is
    possible from the start of the search. *)
Theorem no_worker_never_returns max_page sched st tr :
  (0 <= max_page)%Z ->
  run (start max_page 0) sched = Some (st, tr) ->
  st = start max_page 0 /\ tr = [].
Proof.
  intros Hmp. apply stuck_forever. intros [w r|]; [done|].
  unfold_step; unfold find_starship_rating_resume, Queue.joined; simpl.
  rewrite seed_unfinished, length_seqZ. simpl.
  destruct (Z.to_nat (max_page + 1)) eqn:E; [lia|done].
Qed.

(** X8: when every worker has ended while the coordinator is still in
    [queue.join()] with items outstanding, nothing can happen any more:
    the call never returns. *)
Theorem join_waits_for_ever st sched st' tr' :
  coord st = CJoin ->
  forallb finished (tasks st) = true ->
  0 < Queue.unfinished_tasks (queue (sh st)) ->
  run st sched = Some (st', tr') ->
  st' = st /\ tr' = [].
Proof.
  intros Hc Hfin Hpos. apply stuck_forever. intros [w r|].
  - unfold_step.
    destruct (tasks st !! w) as [pc|] eqn:Hw; [|done].
    pose proof (forallb_lookup _ _ _ _ Hfin Hw) as Hpc.
    by destruct pc, r.
  - unfold_step; unfold find_starship_rating_resume, Queue.joined.
    rewrite Hc. destruct (Queue.unfinished_tasks (queue (sh st))); [lia|done].
Qed.

(** *** The shutdown *)

Lemma run_step_then st a st1 t1 rest :
  step st a = Some (st1, t1) ->
  run st (a :: rest)
  = match run st1 rest with
    | None => None
    | Some (st2, t2) => Some (st2, t1 ++ t2)
    end.
Proof. intros H. simpl. by rewrite H. Qed.

Lemma joined_seen max_page n st tr :
  reaches (start max_page n) st tr -> coord st <> CJoin -> In EvJoined tr.
Proof.
  induction 1 as [|st tr a st' t Hr IH Hs]; [done|].
  intros Hc. apply in_app_iff. step_cases Hs; simpl in *; auto.
Qed.

Lemma count_unfinished_zero l :
  count unfinished l = 0 -> forallb finished l = true.
Proof.
  induction l as [|pc l IH]; [done|]. unfold count, unfinished in *; simpl.
  destruct (finished pc); simpl; [auto|lia].
Qed.

Lemma count_pos_lookup {A} (f : A -> bool) (l : list A) :
  0 < count f l -> exists i x, l !! i = Some x /\ f x = true.
Proof.
  induction l as [|z l IH]; unfold count in *; simpl; [lia|].
  destruct (f z) eqn:Hz; simpl; intros Hpos.
  - by exists 0, z.
  - destruct (IH Hpos) as (i & x & ? & ?). by exists (S i), x.
Qed.

(** After [join] a worker that has not ended can always be brought to its
    end: it leaves the loop, takes a sentinel or times out. *)
Lemma end_worker max_page n st tr w pc :
  reaches (start max_page n) st tr -> In EvJoined tr ->
  tasks st !! w = Some pc -> unfinished pc = true ->
  exists sched1 st1 tr1,
    run st sched1 = Some (st1, tr1)
    /\ tasks st1 = <[w := WReturned]> (tasks st)
    /\ coord st1 = coord st
    /\ result_dict (sh st1) = result_dict (sh st).
Proof.
  intros Hr Hj Hw Hpc.
  pose proof (accounted_reaches _ _ _ (accounted_start _ _) Hr) as Hacc.
  destruct (after_join_reaches _ _ _ _ Hr Hj) as [Hf Hnone].
  pose proof (lookup_lt_Some _ _ _ Hw) as Hlt.
  unfold accounted in Hacc.
  assert (forall st0 : state,
    tasks st0 !! w = Some WGet ->
    Queue.unfinished_tasks (queue (sh st0))
    = length (Queue.items (queue (sh st0)))
      + count fetching (tasks st0) + count dropped (tasks st0) ->
    (forall item, In item (Queue.items (queue (sh st0))) -> item = None) ->
    exists a st1 t1,
      step st0 a = Some (st1, t1)
      /\ tasks st1 = <[w := WReturned]> (tasks st0)
      /\ coord st1 = coord st0
      /\ result_dict (sh st1) = result_dict (sh st0)) as Hget.
  { intros [[mp fe rd [its unf]] tk co] Hw0 Hacc0 Hnone0; simpl in *.
    destruct its as [|item rest].
    - exists (AWorker w TimedOut). unfold_step; simpl.
      rewrite Hw0; simpl. by eexists _, _.
    - rewrite (Hnone0 item (or_introl eq_refl)) in *.
      destruct unf as [|u]; [simpl in Hacc0; lia|].
      exists (AWorker w GotItem). unfold_step; simpl.
      rewrite Hw0; simpl. by eexists _, _. }
  destruct pc; try done.
  - destruct st as [[mp fe rd q] tk co]; simpl in *. destruct fe.
    + exists [AWorker w Scheduled]. simpl. unfold_step; simpl.
      rewrite Hw; simpl. by eexists _, _.
    + destruct (Hget (State (Shared mp false rd q) (<[w := WGet]> tk) co))
        as (a & st1 & t1 & Hs & Ht & Hc & Hrd); simpl.
      * by apply list_lookup_insert_eq.
      * pose proof (count_insert fetching _ _ _ WGet Hw) as H1.
        pose proof (count_insert dropped _ _ _ WGet Hw) as H2.
        simpl in *. lia.
      * done.
      * assert (step (State (Shared mp false rd q) tk co) (AWorker w Scheduled)
                = Some (State (Shared mp false rd q) (<[w := WGet]> tk) co,
                        [EvIsSet w false])) as Hs0.
        { unfold_step; simpl. by rewrite Hw. }
        exists [AWorker w Scheduled; a].
        rewrite (run_step_then _ _ _ _ _ Hs0), (run_step_then _ _ _ _ _ Hs).
        simpl in *. rewrite list_insert_insert_eq in Ht. by eexists _, _.
  - destruct (Hget st Hw Hacc Hnone) as (a & st1 & t1 & Hs & Ht & Hc & Hrd).
    exists [a]. rewrite (run_step_then _ _ _ _ _ Hs). by eexists _, _.
  - pose proof (count_lookup fetching _ _ _ Hw eq_refl). lia.
Qed.

Lemma shutdown_from max_page n k :
  forall st tr,
    reaches (start max_page n) st tr ->
    coord st = CGather ->
    count unfinished (tasks st) = k ->
    exists sched' st' tr',
      run st sched' = Some (st', tr')
      /\ coord st' = CReturned (result_dict (sh st) !! "hyperdrive_rating").
Proof.
  induction k as [|k IH]; intros st tr Hr Hc Hk.
  - exists [ACoord]. simpl.
    unfold_step; unfold find_starship_rating_resume.
    rewrite Hc, (count_unfinished_zero _ Hk). by eexists _, _.
  - destruct (count_pos_lookup unfinished (tasks st)) as (w & pc & Hw & Hpc); [lia|].
    assert (In EvJoined tr) as Hj by (eapply joined_seen; [done|by rewrite Hc]).
    destruct (end_worker _ _ _ _ _ _ Hr Hj Hw Hpc)
      as (sched1 & st1 & tr1 & Hrun1 & Ht & Hc1 & Hrd).
    destruct (IH st1 (tr ++ tr1)) as (sched2 & st2 & tr2 & Hrun2 & Hc2).
    + by eapply reaches_run.
    + by rewrite Hc1.
    + rewrite Ht. pose proof (count_insert unfinished _ _ _ WReturned Hw) as H.
      rewrite Hpc in H. simpl in H. lia.
    + exists (sched1 ++ sched2), st2, (tr1 ++ tr2). split.
      * clear -Hrun1 Hrun2. revert st tr1 Hrun1.
        induction sched1 as [|a sched1 IHs]; intros st tr1 Hrun1; simpl in *.
        -- by simplify_eq.
        -- destruct (step st a) as [[sa ta]|]; [|done].
           destruct (run sa sched1) as [[sb tb]|] eqn:E; [|done].
           simplify_eq. rewrite (IHs _ _ E). by rewrite app_assoc.
      * by rewrite Hc2, Hrd.
Qed.

(** X9: once [queue.join()] has returned and the sentinels are in the
    queue, the call can always finish: from every state the execution can
    be in, some schedule of the workers left ends them all and lets
    [gather] return, with the value [result_dict] holds. *)
Theorem shutdown_completes max_page max_concurrency sched st tr :
  run (start max_page max_concurrency) sched = Some (st, tr) ->
  coord st = CGather ->
  exists sched' st' tr',
    run st sched' = Some (st', tr')
    /\ coord st' = CReturned (result_dict (sh st) !! "hyperdrive_rating").
Proof.
  intros Hrun Hc. apply run_reaches in Hrun.
  by eapply shutdown_from.
Qed.

(** *** The frontier *)

Lemma put_emitted_frontier st a st' k1 w n k2 :
  step st a = Some (st', k1 ++ EvPut w n :: k2) ->
  exists data,
    k1 = [EvFetched w (MAX_PAGE (sh st)) data; EvAdvance w; EvIsSet w false]
    /\ scan starship_name (results data) = None
    /\ next data = NextUrl n.
Proof.
  intros H. step_cases H; locate_event.
  match goal with H : Z.eqb _ _ = true |- _ => apply Z.eqb_eq in H as -> end.
  eauto.
Qed.

Lemma puts_le_advances_step st a st' t :
  step st a = Some (st', t) -> count is_put t <= count is_advance t.
Proof. intros H. step_cases H; unfold count; simpl; lia. Qed.

(** X10: a page number enters the queue after the start only from the
    [next] link of the frontier page: every put follows, in the same run
    of a worker, the arrival of the page whose number is the current
    [MAX_PAGE] (the initial value plus the advances made so far), on which
    the scan found nothing; and there are never more puts than
    advances. *)
Theorem pages_put_by_frontier_only max_page max_concurrency sched st tr :
  run (start max_page max_concurrency) sched = Some (st, tr) ->
  count is_put tr <= count is_advance tr
  /\ (forall tr1 w n tr2,
        tr = tr1 ++ EvPut w n :: tr2 ->
        exists tr0 data,
          tr1 = tr0 ++ [EvFetched w (max_page + Z.of_nat (count is_advance tr0)) data;
                        EvAdvance w; EvIsSet w false]
          /\ scan starship_name (results data) = None
          /\ next data = NextUrl n).
Proof.
  intros Hrun. apply run_reaches in Hrun. split.
  - clear -Hrun. induction Hrun as [|st tr a st' t Hr IH Hs]; [done|].
    pose proof (puts_le_advances_step _ _ _ _ Hs). rewrite !count_app. lia.
  - intros tr1 w n tr2 Heq.
    destruct (reaches_emitted _ _ _ _ _ _ _ Hrun Heq)
      as (st1 & pre & a & st2 & k1 & k2 & post & Hpre & Hs & -> & ->).
    apply put_emitted_frontier in Hs as (data & -> & Hscan & Hnext).
    rewrite (MAX_PAGE_reaches _ _ _ _ Hpre). simpl. eauto.
Qed.

(** *** Single runs of a worker *)

(** X11: in every execution, a worker whose page arrives without a match
    and without a next page sets the event, marks the page done and
    returns; it does not touch [result_dict], [MAX_PAGE] or the items of
    the queue. *)
Theorem exhausted_page_ends_worker max_page max_concurrency sched st tr w p data :
  run (start max_page max_concurrency) sched = Some (st, tr) ->
  tasks st !! w = Some (WFetch p) ->
  scan starship_name (results data) = None ->
  next data = NextNull ->
  exists q,
    Queue.task_done (queue (sh st)) = Some q
    /\ step st (AWorker w (Response (FetchOK data)))
       = Some (State (Shared (MAX_PAGE (sh st)) true (result_dict (sh st)) q)
                     (<[w := WReturned]> (tasks st)) (coord st),
               [EvFetched w p data; EvSet w (found_event (sh st)); EvTaskDone w]).
Proof.
  intros Hrun Hw Hscan Hnext. apply run_reaches in Hrun.
  pose proof (accounted_reaches _ _ _ (accounted_start _ _) Hrun) as Hacc.
  pose proof (count_lookup fetching _ _ _ Hw eq_refl) as Hpos.
  unfold accounted in Hacc.
  destruct st as [[mp fe rd [its [|u]]] tk co]; simpl in *; [lia|].
  eexists. split; [done|].
  unfold_step; simpl. rewrite Hw; simpl.
  cbv beta iota zeta delta
    [fetched mbind M_bind mret M_ret emit set_event task_done Queue.task_done
     with_queue MAX_PAGE found_event result_dict queue Queue.items
     Queue.unfinished_tasks].
  by rewrite Hscan, Hnext.
Qed.

(** X12: in every execution, a worker that takes a sentinel out of the
    queue marks it done and returns; it starts no fetch and leaves the
    event, [result_dict] and [MAX_PAGE] as they are. *)
Theorem sentinel_ends_worker max_page max_concurrency sched st tr w rest :
  run (start max_page max_concurrency) sched = Some (st, tr) ->
  tasks st !! w = Some WGet ->
  Queue.items (queue (sh st)) = None :: rest ->
  exists u,
    Queue.unfinished_tasks (queue (sh st)) = S u
    /\ step st (AWorker w GotItem)
       = Some (State (with_queue (Queue.Make rest u) (sh st))
                     (<[w := WReturned]> (tasks st)) (coord st),
               [EvGet w None; EvTaskDone w]).
Proof.
  intros Hrun Hw Hitems. apply run_reaches in Hrun.
  pose proof (accounted_reaches _ _ _ (accounted_start _ _) Hrun) as Hacc.
  unfold accounted in Hacc.
  destruct st as [[mp fe rd [its [|u]]] tk co]; simpl in *; subst its;
    [simpl in Hacc; lia|].
  eexists. split; [done|].
  unfold_step; simpl. by rewrite Hw.
Qed.

End Further.

(** X1: the scan of a page returns the rating of the first starship whose
    lowered name equals the lowered target, and nothing exactly when no
    starship of the page has such a name. *)
Theorem scan_first_match target rs :
  match scan target rs with
  | Some rating =>
      exists before s after,
        rs = before ++ s :: after
        /\ (forall x, In x before -> lower (name x) <> lower target)
        /\ lower (name s) = lower target
        /\ hyperdrive_rating s = rating
  | None => forall x, In x rs -> lower (name x) <> lower target
  end.
Proof.
  induction rs as [|s rs IH]; simpl; [by intros x []|].
  destruct (String.eqb (lower (name s)) (lower target)) eqn:E.
  - apply String.eqb_eq in E. exists [], s, rs. by repeat split.
  - apply String.eqb_neq in E. destruct (scan target rs) as [rating|].
    + destruct IH as (before & s' & after & -> & Hb & Hs & Hr).
      exists (s :: before), s', after. repeat split; try done.
      intros x [<-|Hx]; auto.
    + intros x [<-|Hx]; auto.
Qed.

(** X13: [fetch_page] asks for a different URL for every page number: the
    URL of line 10 determines the page. *)
Theorem fetch_url_injective p q : fetch_url p = fetch_url q <-> p = q.
Proof.
  split; [|by intros ->]. unfold fetch_url. intros H.
  assert (forall a b c, String.append a b = String.append a c -> b = c) as Hcancel.
  { induction a as [|x a IH]; simpl; intros b c Hbc; [done|].
    injection Hbc as Hbc. by apply IH. }
  apply Hcancel in H.
  apply DecimalZ.to_int_inj.
  apply (f_equal NilEmpty.int_of_string) in H.
  rewrite !NilEmpty.isi in H. by injection H.
Qed.

(** X14: [main] prints that the starship was found, with a rating, only if
    the rating is not empty and some page that arrived lists a starship
    named "Jedi Interceptor" up to letter case with that rating. *)
Theorem main_announces_a_listed_rating max_page sched st tr r rating :
  run starship_to_find (find_starship_rating_start max_page 5) sched = Some (st, tr) ->
  coord st = CReturned r ->
  main_prints r
  = String.append "Found 'Jedi Interceptor' with hyperdrive_rating = " rating ->
  rating <> EmptyString
  /\ r = Some rating
  /\ exists w p data s,
      In (EvFetched w p data) tr /\ In s (results data)
      /\ lower (name s) = lower starship_to_find
      /\ hyperdrive_rating s = rating.
Proof.
  intros Hrun Hret Hprint.
  pose proof (returned_rating_is_a_match _ _ _ _ _ _ _ Hrun Hret) as Hm.
  destruct r as [[|c r0]|]; simpl in Hprint; try discriminate Hprint.
  assert (rating = String c r0) as ->.
  { unfold starship_to_find in Hprint. simpl in Hprint.
    by simplify_eq. }
  by repeat split.
Qed.

(** ** These properties on the scenarios *)

Lemma found_on_page_2_runs :
  run "slave 1" (find_starship_rating_start 2 1) found_on_page_2
  = Some (found_on_page_2_end.1, found_on_page_2_end.2).
Proof. vm_compute. reflexivity. Defined.

Lemma found_on_page_2_joined_runs :
  run "slave 1" (find_starship_rating_start 2 1) found_on_page_2_joined
  = Some (found_on_page_2_joined_end.1, found_on_page_2_joined_end.2).
Proof. vm_compute. reflexivity. Defined.

Lemma main_search_runs :
  run starship_to_find (find_starship_rating_start 2 5) main_search
  = Some (main_search_end.1, main_search_end.2).
Proof. vm_compute. reflexivity. Defined.

Lemma sentinel_for_waiting_worker_runs :
  run "slave 1" (find_starship_rating_start 2 2) sentinel_for_waiting_worker
  = Some (sentinel_for_waiting_worker_end.1, sentinel_for_waiting_worker_end.2).
Proof. vm_compute. reflexivity. Defined.

Lemma at_the_last_page_runs :
  run "Death Star" (find_starship_rating_start 2 1) at_the_last_page
  = Some (at_the_last_page_end.1, at_the_last_page_end.2).
Proof. vm_compute. reflexivity. Defined.


Lemma returned_rating_is_a_match_witness :
  run "slave 1" (find_starship_rating_start 2 1) found_on_page_2
  = Some (found_on_page_2_end.1, found_on_page_2_end.2)
  /\ coord found_on_page_2_end.1 = CReturned (Some "3.0")
  /\ exists w p data s,
      In (EvFetched w p data) found_on_page_2_end.2 /\ In s (results data)
      /\ lower (name s) = lower "slave 1"
      /\ hyperdrive_rating s = "3.0".
Proof.
  split; [exact found_on_page_2_runs|]. split; [reflexivity|].
  exact (returned_rating_is_a_match "slave 1" 2 1 found_on_page_2 _ _ (Some "3.0")
           found_on_page_2_runs eq_refl).
Defined.

Lemma unfinished_tasks_exact_witness :
  run "Death Star" (find_starship_rating_start 2 1) at_the_last_page
  = Some (at_the_last_page_end.1, at_the_last_page_end.2)
  /\ Queue.unfinished_tasks (queue (sh at_the_last_page_end.1))
     = length (Queue.items (queue (sh at_the_last_page_end.1)))
       + count fetching (tasks at_the_last_page_end.1)
       + count dropped (tasks at_the_last_page_end.1).
Proof.
  split; [exact at_the_last_page_runs|].
  exact (unfinished_tasks_exact "Death Star" 2 1 at_the_last_page _ _
           at_the_last_page_runs).
Defined.

Lemma no_work_after_join_witness :
  run starship_to_find (find_starship_rating_start 2 5) main_search
  = Some (main_search_end.1, main_search_end.2)
  /\ main_search_end.2
     = firstn 27 main_search_end.2 ++ EvJoined :: skipn 28 main_search_end.2
  /\ In (EvIsSet 3 true) (skipn 28 main_search_end.2)
  /\ is_work (EvIsSet 3 true) = false.
Proof.
  split; [exact main_search_runs|].
  split; [vm_compute; reflexivity|].
  assert (In (EvIsSet 3 true) (skipn 28 main_search_end.2)) as Hin
    by (vm_compute; tauto).
  split; [exact Hin|].
  refine (no_work_after_join starship_to_find 2 5 main_search _ _
            (firstn 27 main_search_end.2) (skipn 28 main_search_end.2) _
            main_search_runs _ Hin).
  vm_compute. reflexivity.
Defined.

Lemma returned_is_last_write_witness :
  run "slave 1" (find_starship_rating_start 2 1) found_on_page_2
  = Some (found_on_page_2_end.1, found_on_page_2_end.2)
  /\ coord found_on_page_2_end.1 = CReturned (Some "3.0")
  /\ Some "3.0" = last_write found_on_page_2_end.2.
Proof.
  split; [exact found_on_page_2_runs|]. split; [reflexivity|].
  exact (returned_is_last_write "slave 1" 2 1 found_on_page_2 _ _ (Some "3.0")
           found_on_page_2_runs eq_refl).
Defined.

Lemma no_worker_never_returns_witness :
  (0 <= 2)%Z
  /\ run "X-wing" (find_starship_rating_start 2 0) []
     = Some (find_starship_rating_start 2 0, [])
  /\ find_starship_rating_start 2 0 = find_starship_rating_start 2 0
  /\ @nil event = [].
Proof.
  assert (0 <= 2)%Z as H by lia.
  split; [exact H|]. split; [reflexivity|].
  exact (no_worker_never_returns "X-wing" 2 [] _ _ H eq_refl).
Defined.

Lemma join_waits_for_ever_witness :
  coord early_match_end.1 = CJoin
  /\ forallb finished (tasks early_match_end.1) = true
  /\ 0 < Queue.unfinished_tasks (queue (sh early_match_end.1))
  /\ run "X-wing" early_match_end.1 [] = Some (early_match_end.1, [])
  /\ early_match_end.1 = early_match_end.1
  /\ @nil event = [].
Proof.
  assert (0 < Queue.unfinished_tasks (queue (sh early_match_end.1))) as H
    by (vm_compute; lia).
  split; [reflexivity|]. split; [reflexivity|]. split; [exact H|].
  split; [reflexivity|].
  exact (join_waits_for_ever "X-wing" early_match_end.1 [] _ _
           eq_refl eq_refl H eq_refl).
Defined.

Lemma shutdown_completes_witness :
  run "slave 1" (find_starship_rating_start 2 2) sentinel_for_waiting_worker
  = Some (sentinel_for_waiting_worker_end.1, sentinel_for_waiting_worker_end.2)
  /\ coord sentinel_for_waiting_worker_end.1 = CGather
  /\ exists sched' st' tr',
      run "slave 1" sentinel_for_waiting_worker_end.1 sched' = Some (st', tr')
      /\ coord st'
         = CReturned (result_dict (sh sentinel_for_waiting_worker_end.1)
                        !! "hyperdrive_rating").
Proof.
  split; [exact sentinel_for_waiting_worker_runs|]. split; [reflexivity|].
  exact (shutdown_completes "slave 1" 2 2 sentinel_for_waiting_worker _ _
           sentinel_for_waiting_worker_runs eq_refl).
Defined.

Lemma pages_put_by_frontier_only_witness :
  run "Death Star" (find_starship_rating_start 2 1) whole_collection
  = Some (whole_collection_end.1, whole_collection_end.2)
  /\ count is_put whole_collection_end.2 <= count is_advance whole_collection_end.2
  /\ (forall tr1 w n tr2,
        whole_collection_end.2 = tr1 ++ EvPut w n :: tr2 ->
        exists tr0 data,
          tr1 = tr0 ++ [EvFetched w (2 + Z.of_nat (count is_advance tr0)) data;
                        EvAdvance w; EvIsSet w false]
          /\ scan "Death Star" (results data) = None
          /\ next data = NextUrl n).
Proof.
  split; [exact whole_collection_runs|].
  exact (pages_put_by_frontier_only "Death Star" 2 1 whole_collection _ _
           whole_collection_runs).
Defined.

Lemma exhausted_page_ends_worker_witness :
  run "Death Star" (find_starship_rating_start 2 1) at_the_last_page
  = Some (at_the_last_page_end.1, at_the_last_page_end.2)
  /\ tasks at_the_last_page_end.1 !! 0 = Some (WFetch 3)
  /\ scan "Death Star" (results page_3_last) = None
  /\ next page_3_last = NextNull
  /\ exists q,
      Queue.task_done (queue (sh at_the_last_page_end.1)) = Some q
      /\ step "Death Star" at_the_last_page_end.1
              (AWorker 0 (Response (FetchOK page_3_last)))
         = Some (State (Shared (MAX_PAGE (sh at_the_last_page_end.1)) true
                               (result_dict (sh at_the_last_page_end.1)) q)
                       (<[0 := WReturned]> (tasks at_the_last_page_end.1))
                       (coord at_the_last_page_end.1),
                 [EvFetched 0 3 page_3_last;
                  EvSet 0 (found_event (sh at_the_last_page_end.1));
                  EvTaskDone 0]).
Proof.
  split; [exact at_the_last_page_runs|].
  do 3 (split; [reflexivity|]).
  exact (exhausted_page_ends_worker "Death Star" 2 1 at_the_last_page _ _ 0 3
           page_3_last at_the_last_page_runs eq_refl eq_refl eq_refl).
Defined.

Lemma sentinel_ends_worker_witness :
  run "slave 1" (find_starship_rating_start 2 2) sentinel_for_waiting_worker
  = Some (sentinel_for_waiting_worker_end.1, sentinel_for_waiting_worker_end.2)
  /\ tasks sentinel_for_waiting_worker_end.1 !! 1 = Some WGet
  /\ Queue.items (queue (sh sentinel_for_waiting_worker_end.1)) = None :: [None]
  /\ exists u,
      Queue.unfinished_tasks (queue (sh sentinel_for_waiting_worker_end.1)) = S u
      /\ step "slave 1" sentinel_for_waiting_worker_end.1 (AWorker 1 GotItem)
         = Some (State (with_queue (Queue.Make [None] u)
                                   (sh sentinel_for_waiting_worker_end.1))
                       (<[1 := WReturned]> (tasks sentinel_for_waiting_worker_end.1))
                       (coord sentinel_for_waiting_worker_end.1),
                 [EvGet 1 None; EvTaskDone 1]).
Proof.
  split; [exact sentinel_for_waiting_worker_runs|].
  do 2 (split; [reflexivity|]).
  exact (sentinel_ends_worker "slave 1" 2 2 sentinel_for_waiting_worker _ _ 1 [None]
           sentinel_for_waiting_worker_runs eq_refl eq_refl).
Defined.

Lemma main_announces_a_listed_rating_witness :
  run starship_to_find (find_starship_rating_start 2 5) main_search
  = Some (main_search_end.1, main_search_end.2)
  /\ coord main_search_end.1 = CReturned (Some "1.0")
  /\ main_prints (Some "1.0")
     = String.append "Found 'Jedi Interceptor' with hyperdrive_rating = " "1.0"
  /\ "1.0" <> EmptyString
  /\ Some "1.0" = Some "1.0"
  /\ exists w p data s,
      In (EvFetched w p data) main_search_end.2 /\ In s (results data)
      /\ lower (name s) = lower starship_to_find
      /\ hyperdrive_rating s = "1.0".
Proof.
  split; [exact main_search_runs|].
  do 2 (split; [reflexivity|]).
  exact (main_announces_a_listed_rating 2 main_search _ _ (Some "1.0") "1.0"
           main_search_runs eq_refl eq_refl).
Defined.
